(** * BurstFire I2C driver: a shallow embedding and its properties

    The development embeds the two driver sources of the repository,
    [burstfire_i2c_driver.c] (ESP-IDF only) and the ESP-IDF branch of
    [burstfire_i2c_driver.cpp] (dual platform), as state-passing functions
    over the driver's two globals and a log of the calls made to the vendor
    I2C driver. The vendor driver is an oracle: its reply to a call may depend
    on every call made before. *)

From Stdlib Require Import ZArith List Bool Lia.
From stdpp Require Import base list.
Import ListNotations.
Local Open Scope Z_scope.

(** ** Machine integers and vendor constants *)

Abbreviation uint8_t := Z (only parsing).
Abbreviation esp_err_t := Z (only parsing).
Abbreviation i2c_port_t := Z (only parsing).
Abbreviation gpio_num_t := Z (only parsing).

(** Conversion to [uint8_t]: the value modulo 2^8. *)
Definition u8 (z : Z) : uint8_t := z mod 256.

(** [esp_err.h] of ESP-IDF. *)
Definition ESP_OK : esp_err_t := 0.
Definition ESP_FAIL : esp_err_t := -1.
Definition ESP_ERR_INVALID_ARG : esp_err_t := 0x102.
Definition ESP_ERR_INVALID_STATE : esp_err_t := 0x103.

(** [burstfire_i2c_driver.h]: the ATtiny202 register map. *)
Definition BURSTFIRE_REG_DUTY : uint8_t := 0x00.
Definition BURSTFIRE_REG_MAX_DUTY : uint8_t := 0x01.
Definition BURSTFIRE_REG_GRID_HZ : uint8_t := 0x02.
Definition BURSTFIRE_REG_FW_MAJOR : uint8_t := 0x10.
Definition BURSTFIRE_REG_FW_MINOR : uint8_t := 0x11.
Definition BURSTFIRE_REG_FW_PATCH : uint8_t := 0x12.
Definition BURSTFIRE_REG_STATUS : uint8_t := 0x13.
Definition BURSTFIRE_REG_I2C_ADDR : uint8_t := 0x14.

(** ** Data structures of the header *)

Record burstfire_config_t := {
  port : i2c_port_t;
  sda_pin : gpio_num_t;
  scl_pin : gpio_num_t;
  clk_speed : Z
}.

Record burstfire_device_info_t := {
  address : uint8_t;
  fw_major : uint8_t;
  fw_minor : uint8_t;
  fw_patch : uint8_t;
  connected : bool
}.

Definition set_address (i : burstfire_device_info_t) (v : uint8_t) :=
  {| address := v; fw_major := fw_major i; fw_minor := fw_minor i;
     fw_patch := fw_patch i; connected := connected i |}.
Definition set_fw_major (i : burstfire_device_info_t) (v : uint8_t) :=
  {| address := address i; fw_major := v; fw_minor := fw_minor i;
     fw_patch := fw_patch i; connected := connected i |}.
Definition set_fw_minor (i : burstfire_device_info_t) (v : uint8_t) :=
  {| address := address i; fw_major := fw_major i; fw_minor := v;
     fw_patch := fw_patch i; connected := connected i |}.
Definition set_fw_patch (i : burstfire_device_info_t) (v : uint8_t) :=
  {| address := address i; fw_major := fw_major i; fw_minor := fw_minor i;
     fw_patch := v; connected := connected i |}.
Definition set_connected (i : burstfire_device_info_t) (v : bool) :=
  {| address := address i; fw_major := fw_major i; fw_minor := fw_minor i;
     fw_patch := fw_patch i; connected := v |}.

(** ** The vendor I2C driver

    What the driver hands to ESP-IDF. A buffer argument is the list of bytes
    it holds, so the zero-length write of the presence probe carries []. *)

Inductive i2c_mode_t := I2C_MODE_SLAVE | I2C_MODE_MASTER.
Inductive gpio_pullup_t := GPIO_PULLUP_DISABLE | GPIO_PULLUP_ENABLE.

Record i2c_config_t := {
  mode : i2c_mode_t;
  sda_io_num : gpio_num_t;
  scl_io_num : gpio_num_t;
  sda_pullup_en : gpio_pullup_t;
  scl_pullup_en : gpio_pullup_t;
  master_clk_speed : Z
}.

Inductive bus_call :=
| I2cParamConfig (i2c_num : i2c_port_t) (conf : i2c_config_t)
| I2cDriverInstall (i2c_num : i2c_port_t) (md : i2c_mode_t)
    (slv_rx_buf_len slv_tx_buf_len intr_alloc_flags : Z)
| I2cDriverDelete (i2c_num : i2c_port_t)
| I2cMasterWriteToDevice (i2c_num : i2c_port_t) (device_address : uint8_t)
    (write_buffer : list uint8_t) (ticks_to_wait : Z)
| I2cMasterWriteReadDevice (i2c_num : i2c_port_t) (device_address : uint8_t)
    (write_buffer : list uint8_t) (read_size : Z) (ticks_to_wait : Z).

(** The reply to a call: the status code and, for a read, the byte the vendor
    driver stored in the caller's one-byte buffer, if it stored one. Nothing
    ties the two together: a failing read may have stored a byte. *)
Record bus_reply := {
  reply_code : esp_err_t;
  reply_data : option uint8_t
}.

(** The platform under the driver: the bus oracle, which sees the calls made so
    far (oldest first) and the call at hand, and FreeRTOS' [pdMS_TO_TICKS]. *)
Record vendor := {
  i2c_bus : list bus_call -> bus_call -> bus_reply;
  pdMS_TO_TICKS : Z -> Z
}.

(** ** Driver state and its monad

    The two file-scope statics and the log of vendor calls. *)

Record drv_state := {
  g_initialized : bool;
  g_port : i2c_port_t;
  bus_log : list bus_call
}.

(** Static storage is zero-initialised; [g_initialized] starts [false]. *)
Definition boot_state : drv_state :=
  {| g_initialized := false; g_port := 0; bus_log := [] |}.

Definition M (A : Type) : Type := drv_state -> A * drv_state.

Definition ret {A} (a : A) : M A := fun st => (a, st).
Definition bind {A B} (m : M A) (k : A -> M B) : M B :=
  fun st => let (a, st') := m st in k a st'.

Declare Scope drv_scope.
Delimit Scope drv_scope with drv.
Notation "'let*' x := m 'in' k" := (bind m (fun x => k))
  (at level 10, x pattern, m at level 100, k at level 200) : drv_scope.
Local Open Scope drv_scope.

Definition get_initialized : M bool := fun st => (g_initialized st, st).
Definition get_port : M i2c_port_t := fun st => (g_port st, st).
Definition set_initialized (b : bool) : M unit := fun st =>
  (tt, {| g_initialized := b; g_port := g_port st; bus_log := bus_log st |}).
Definition set_port (p : i2c_port_t) : M unit := fun st =>
  (tt, {| g_initialized := g_initialized st; g_port := p; bus_log := bus_log st |}).

(** One call into the vendor driver: it is answered from the log so far and
    appended to it. *)
Definition bus_do (V : vendor) (c : bus_call) : M bus_reply := fun st =>
  (i2c_bus V (bus_log st) c,
   {| g_initialized := g_initialized st; g_port := g_port st;
      bus_log := bus_log st ++ [c] |}).

(** [ret != ESP_OK] *)
Definition failed (r : esp_err_t) : bool := negb (r =? ESP_OK).

(** A pointer to one byte is the content of the cell it points to, [None] for
    NULL. Distinct pointer arguments are distinct cells. *)
Abbreviation ptr A := (option A) (only parsing).

(** Result of code that has a loop or an indexed store. *)
Inductive outcome (A : Type) :=
| Returns (a : A)
| OutOfBounds
| OutOfFuel.
Arguments Returns {A} a.
Arguments OutOfBounds {A}.
Arguments OutOfFuel {A}.

(** The vendor entry points, as the driver calls them. *)
Section VendorCalls.
Context (V : vendor).

Definition i2c_param_config (i2c_num : i2c_port_t) (conf : i2c_config_t) : M esp_err_t :=
  let* r := bus_do V (I2cParamConfig i2c_num conf) in ret (reply_code r).

Definition i2c_driver_install (i2c_num : i2c_port_t) (md : i2c_mode_t)
    (rx tx flags : Z) : M esp_err_t :=
  let* r := bus_do V (I2cDriverInstall i2c_num md rx tx flags) in ret (reply_code r).

Definition i2c_driver_delete (i2c_num : i2c_port_t) : M esp_err_t :=
  let* r := bus_do V (I2cDriverDelete i2c_num) in ret (reply_code r).

Definition i2c_master_write_to_device (i2c_num : i2c_port_t) (device_address : uint8_t)
    (write_buffer : list uint8_t) (ticks : Z) : M esp_err_t :=
  let* r := bus_do V (I2cMasterWriteToDevice i2c_num device_address write_buffer ticks) in
  ret (reply_code r).

(** [read_buffer] is the content of the one-byte buffer before the call; the
    second component of the result is its content after. *)
Definition i2c_master_write_read_device (i2c_num : i2c_port_t) (device_address : uint8_t)
    (write_buffer : list uint8_t) (read_buffer : uint8_t) (read_size : Z) (ticks : Z)
    : M (esp_err_t * uint8_t) :=
  let* r := bus_do V (I2cMasterWriteReadDevice i2c_num device_address write_buffer read_size ticks) in
  ret (reply_code r, default read_buffer (reply_data r)).
End VendorCalls.

(** ** [burstfire_i2c_driver.c]: the ESP-IDF driver *)

Module Idf.
Section WithVendor.
Context (V : vendor).

Definition write_reg (addr reg val : uint8_t) : M esp_err_t :=
  let cmd := [reg; val] in
  let* p := get_port in
  i2c_master_write_to_device V p addr cmd (pdMS_TO_TICKS V 100).

Definition read_reg (addr reg : uint8_t) (val : uint8_t) : M (esp_err_t * uint8_t) :=
  let cmd := u8 (Z.lor 0x80 reg) in
  let* p := get_port in
  i2c_master_write_read_device V p addr [cmd] val 1 (pdMS_TO_TICKS V 100).

Definition burstfire_init (config : ptr burstfire_config_t) : M esp_err_t :=
  match config with
  | None => ret ESP_ERR_INVALID_ARG
  | Some config =>
    let i2c_config :=
      {| mode := I2C_MODE_MASTER;
         sda_io_num := sda_pin config;
         scl_io_num := scl_pin config;
         sda_pullup_en := GPIO_PULLUP_ENABLE;
         scl_pullup_en := GPIO_PULLUP_ENABLE;
         master_clk_speed := clk_speed config |} in
    let* r := i2c_param_config V (port config) i2c_config in
    if failed r then ret r else
    let* r := i2c_driver_install V (port config) I2C_MODE_MASTER 0 0 0 in
    if failed r then ret r else
    let* _ := set_port (port config) in
    let* _ := set_initialized true in
    ret ESP_OK
  end.

Definition burstfire_deinit : M esp_err_t :=
  let* init := get_initialized in
  if negb init then ret ESP_ERR_INVALID_STATE else
  let* p := get_port in
  let* r := i2c_driver_delete V p in
  let* _ := set_initialized false in
  ret r.

Definition burstfire_set_duty (addr duty : uint8_t) : M esp_err_t :=
  let* init := get_initialized in
  if negb init then ret ESP_ERR_INVALID_STATE else
  if 10 <? duty then ret ESP_ERR_INVALID_ARG else
  write_reg addr BURSTFIRE_REG_DUTY duty.

Definition burstfire_get_duty (addr : uint8_t) (duty : ptr uint8_t)
    : M (esp_err_t * ptr uint8_t) :=
  let* init := get_initialized in
  if negb init then ret (ESP_ERR_INVALID_STATE, duty) else
  match duty with
  | None => ret (ESP_ERR_INVALID_ARG, None)
  | Some d =>
    let* (r, d') := read_reg addr BURSTFIRE_REG_DUTY d in
    ret (r, Some d')
  end.

Definition burstfire_set_grid_60hz (addr : uint8_t) (is_60hz : bool) : M esp_err_t :=
  let* init := get_initialized in
  if negb init then ret ESP_ERR_INVALID_STATE else
  write_reg addr BURSTFIRE_REG_GRID_HZ (if is_60hz then 1 else 0).

Definition burstfire_get_status (addr : uint8_t) (status : ptr uint8_t)
    : M (esp_err_t * ptr uint8_t) :=
  let* init := get_initialized in
  if negb init then ret (ESP_ERR_INVALID_STATE, status) else
  match status with
  | None => ret (ESP_ERR_INVALID_ARG, None)
  | Some s =>
    let* (r, s') := read_reg addr BURSTFIRE_REG_STATUS s in
    ret (r, Some s')
  end.

Definition burstfire_is_connected (addr : uint8_t) : M bool :=
  let* init := get_initialized in
  if negb init then ret false else
  let* p := get_port in
  let* r := i2c_master_write_to_device V p addr [] (pdMS_TO_TICKS V 100) in
  ret (r =? ESP_OK).

(** The [for] loop of [burstfire_scan_devices], entered with the loop
    variable [addr], the array and [*count]. One unit of fuel pays for one
    evaluation of the loop condition. A store past the end of the array has
    no defined behaviour in C and stops the run. *)
Fixpoint scan_loop (fuel : nat) (addr : uint8_t) (addresses : list uint8_t)
    (count : uint8_t) : M (outcome (list uint8_t * uint8_t)) :=
  match fuel with
  | O => ret OutOfFuel
  | S fuel' =>
    if addr <=? 0x23 then
      let* c := burstfire_is_connected addr in
      if c then
        if (Z.to_nat count <? length addresses)%nat then
          scan_loop fuel' (u8 (addr + 1))
            (<[Z.to_nat count := addr]> addresses) (u8 (count + 1))
        else ret OutOfBounds
      else scan_loop fuel' (u8 (addr + 1)) addresses count
    else ret (Returns (addresses, count))
  end.

(** A [uint8_t] loop variable takes 256 values. *)
Definition scan_fuel : nat := 257.

Definition burstfire_scan_devices (addresses : ptr (list uint8_t)) (count : ptr uint8_t)
    : M (outcome (esp_err_t * ptr (list uint8_t) * ptr uint8_t)) :=
  let* init := get_initialized in
  if negb init then ret (Returns (ESP_ERR_INVALID_STATE, addresses, count)) else
  match addresses, count with
  | Some arr, Some _ =>
    let cnt := 0 in
    let* o := scan_loop scan_fuel 0x20 arr cnt in
    match o with
    | Returns (arr', cnt') => ret (Returns (ESP_OK, Some arr', Some cnt'))
    | OutOfBounds => ret OutOfBounds
    | OutOfFuel => ret OutOfFuel
    end
  | _, _ => ret (Returns (ESP_ERR_INVALID_ARG, addresses, count))
  end.

Definition burstfire_get_firmware_version (addr : uint8_t)
    (major minor patch : ptr uint8_t)
    : M (esp_err_t * ptr uint8_t * ptr uint8_t * ptr uint8_t) :=
  let* init := get_initialized in
  if negb init then ret (ESP_ERR_INVALID_STATE, major, minor, patch) else
  match major, minor, patch with
  | Some ma, Some mi, Some pa =>
    let* (r, ma) := read_reg addr BURSTFIRE_REG_FW_MAJOR ma in
    if failed r then ret (r, Some ma, Some mi, Some pa) else
    let* (r, mi) := read_reg addr BURSTFIRE_REG_FW_MINOR mi in
    if failed r then ret (r, Some ma, Some mi, Some pa) else
    let* (r, pa) := read_reg addr BURSTFIRE_REG_FW_PATCH pa in
    ret (r, Some ma, Some mi, Some pa)
  | _, _, _ => ret (ESP_ERR_INVALID_ARG, major, minor, patch)
  end.

(** [&info->fw_major] and its two siblings lend the three fields to
    [burstfire_get_firmware_version]; what it leaves in them is the fields'
    content afterwards. *)
Definition burstfire_get_device_info (addr : uint8_t) (info : ptr burstfire_device_info_t)
    : M (esp_err_t * ptr burstfire_device_info_t) :=
  let* init := get_initialized in
  if negb init then ret (ESP_ERR_INVALID_STATE, info) else
  match info with
  | None => ret (ESP_ERR_INVALID_ARG, None)
  | Some info =>
    let info := set_address info addr in
    let* c := burstfire_is_connected addr in
    let info := set_connected info c in
    if connected info then
      let* (r, ma, mi, pa) := burstfire_get_firmware_version addr
          (Some (fw_major info)) (Some (fw_minor info)) (Some (fw_patch info)) in
      let info := set_fw_major info (default (fw_major info) ma) in
      let info := set_fw_minor info (default (fw_minor info) mi) in
      let info := set_fw_patch info (default (fw_patch info) pa) in
      if failed r then
        let info := set_connected info false in
        ret (r, Some info)
      else ret (ESP_OK, Some info)
    else
      let info := set_fw_patch info 0 in
      let info := set_fw_minor info (fw_patch info) in
      let info := set_fw_major info (fw_minor info) in
      ret (ESP_OK, Some info)
  end.
End WithVendor.
End Idf.

(** ** [burstfire_i2c_driver.cpp]: the dual-platform driver, ESP-IDF branch

    Every [#ifdef ARDUINO] is resolved to its [#else] branch. *)

Module Dual.
Section WithVendor.
Context (V : vendor).

Definition write_reg (addr reg val : uint8_t) : M esp_err_t :=
  let cmd := [reg; val] in
  let* p := get_port in
  i2c_master_write_to_device V p addr cmd (pdMS_TO_TICKS V 100).

Definition read_reg (addr reg : uint8_t) (val : uint8_t) : M (esp_err_t * uint8_t) :=
  let cmd := u8 (Z.lor 0x80 reg) in
  let* p := get_port in
  i2c_master_write_read_device V p addr [cmd] val 1 (pdMS_TO_TICKS V 100).

Definition burstfire_init (config : ptr burstfire_config_t) : M esp_err_t :=
  match config with
  | None => ret ESP_ERR_INVALID_ARG
  | Some config =>
    let i2c_config :=
      {| mode := I2C_MODE_MASTER;
         sda_io_num := sda_pin config;
         scl_io_num := scl_pin config;
         sda_pullup_en := GPIO_PULLUP_ENABLE;
         scl_pullup_en := GPIO_PULLUP_ENABLE;
         master_clk_speed := clk_speed config |} in
    let* r := i2c_param_config V (port config) i2c_config in
    if failed r then ret r else
    let* r := i2c_driver_install V (port config) I2C_MODE_MASTER 0 0 0 in
    if failed r then ret r else
    let* _ := set_port (port config) in
    let* _ := set_initialized true in
    ret ESP_OK
  end.

Definition burstfire_deinit : M esp_err_t :=
  let* init := get_initialized in
  if negb init then ret ESP_ERR_INVALID_STATE else
  let* p := get_port in
  let* r := i2c_driver_delete V p in
  if failed r then ret r else
  let* _ := set_initialized false in
  ret ESP_OK.

Definition burstfire_set_duty (addr duty : uint8_t) : M esp_err_t :=
  let* init := get_initialized in
  if negb init then ret ESP_ERR_INVALID_STATE else
  if 10 <? duty then ret ESP_ERR_INVALID_ARG else
  write_reg addr BURSTFIRE_REG_DUTY duty.

Definition burstfire_get_duty (addr : uint8_t) (duty : ptr uint8_t)
    : M (esp_err_t * ptr uint8_t) :=
  let* init := get_initialized in
  if negb init then ret (ESP_ERR_INVALID_STATE, duty) else
  match duty with
  | None => ret (ESP_ERR_INVALID_ARG, None)
  | Some d =>
    let* (r, d') := read_reg addr BURSTFIRE_REG_DUTY d in
    ret (r, Some d')
  end.

Definition burstfire_set_grid_60hz (addr : uint8_t) (is_60hz : bool) : M esp_err_t :=
  let* init := get_initialized in
  if negb init then ret ESP_ERR_INVALID_STATE else
  write_reg addr BURSTFIRE_REG_GRID_HZ (if is_60hz then 1 else 0).

Definition burstfire_get_status (addr : uint8_t) (status : ptr uint8_t)
    : M (esp_err_t * ptr uint8_t) :=
  let* init := get_initialized in
  if negb init then ret (ESP_ERR_INVALID_STATE, status) else
  match status with
  | None => ret (ESP_ERR_INVALID_ARG, None)
  | Some s =>
    let* (r, s') := read_reg addr BURSTFIRE_REG_STATUS s in
    ret (r, Some s')
  end.

Definition burstfire_is_connected (addr : uint8_t) : M bool :=
  let* init := get_initialized in
  if negb init then ret false else
  let* p := get_port in
  let* r := i2c_master_write_to_device V p addr [] (pdMS_TO_TICKS V 100) in
  ret (r =? ESP_OK).

(** The [for] loop of [burstfire_scan_devices], entered with the loop
    variable [addr], the array and [*count]. One unit of fuel pays for one
    evaluation of the loop condition. A store past the end of the array has
    no defined behaviour in C and stops the run. *)
Fixpoint scan_loop (fuel : nat) (addr : uint8_t) (addresses : list uint8_t)
    (count : uint8_t) : M (outcome (list uint8_t * uint8_t)) :=
  match fuel with
  | O => ret OutOfFuel
  | S fuel' =>
    if addr <=? 0x23 then
      let* c := burstfire_is_connected addr in
      if c then
        if (Z.to_nat count <? length addresses)%nat then
          scan_loop fuel' (u8 (addr + 1))
            (<[Z.to_nat count := addr]> addresses) (u8 (count + 1))
        else ret OutOfBounds
      else scan_loop fuel' (u8 (addr + 1)) addresses count
    else ret (Returns (addresses, count))
  end.

(** A [uint8_t] loop variable takes 256 values. *)
Definition scan_fuel : nat := 257.

Definition burstfire_scan_devices (addresses : ptr (list uint8_t)) (count : ptr uint8_t)
    : M (outcome (esp_err_t * ptr (list uint8_t) * ptr uint8_t)) :=
  let* init := get_initialized in
  if negb init then ret (Returns (ESP_ERR_INVALID_STATE, addresses, count)) else
  match addresses, count with
  | Some arr, Some _ =>
    let cnt := 0 in
    let* o := scan_loop scan_fuel 0x20 arr cnt in
    match o with
    | Returns (arr', cnt') => ret (Returns (ESP_OK, Some arr', Some cnt'))
    | OutOfBounds => ret OutOfBounds
    | OutOfFuel => ret OutOfFuel
    end
  | _, _ => ret (Returns (ESP_ERR_INVALID_ARG, addresses, count))
  end.

Definition burstfire_get_firmware_version (addr : uint8_t)
    (major minor patch : ptr uint8_t)
    : M (esp_err_t * ptr uint8_t * ptr uint8_t * ptr uint8_t) :=
  let* init := get_initialized in
  if negb init then ret (ESP_ERR_INVALID_STATE, major, minor, patch) else
  match major, minor, patch with
  | Some ma, Some mi, Some pa =>
    let* (r, ma) := read_reg addr BURSTFIRE_REG_FW_MAJOR ma in
    if failed r then ret (r, Some ma, Some mi, Some pa) else
    let* (r, mi) := read_reg addr BURSTFIRE_REG_FW_MINOR mi in
    if failed r then ret (r, Some ma, Some mi, Some pa) else
    let* (r, pa) := read_reg addr BURSTFIRE_REG_FW_PATCH pa in
    ret (r, Some ma, Some mi, Some pa)
  | _, _, _ => ret (ESP_ERR_INVALID_ARG, major, minor, patch)
  end.

(** [&info->fw_major] and its two siblings lend the three fields to
    [burstfire_get_firmware_version]; what it leaves in them is the fields'
    content afterwards. *)
Definition burstfire_get_device_info (addr : uint8_t) (info : ptr burstfire_device_info_t)
    : M (esp_err_t * ptr burstfire_device_info_t) :=
  let* init := get_initialized in
  if negb init then ret (ESP_ERR_INVALID_STATE, info) else
  match info with
  | None => ret (ESP_ERR_INVALID_ARG, None)
  | Some info =>
    let info := set_address info addr in
    let* c := burstfire_is_connected addr in
    let info := set_connected info c in
    if connected info then
      let* (r, ma, mi, pa) := burstfire_get_firmware_version addr
          (Some (fw_major info)) (Some (fw_minor info)) (Some (fw_patch info)) in
      let info := set_fw_major info (default (fw_major info) ma) in
      let info := set_fw_minor info (default (fw_minor info) mi) in
      let info := set_fw_patch info (default (fw_patch info) pa) in
      if failed r then
        let info := set_connected info false in
        ret (r, Some info)
      else ret (ESP_OK, Some info)
    else
      let info := set_fw_patch info 0 in
      let info := set_fw_minor info (fw_patch info) in
      let info := set_fw_major info (fw_minor info) in
      ret (ESP_OK, Some info)
  end.
End WithVendor.
End Dual.

(** ** The public surface as one type

    A call of the public API with its arguments, and what it hands back: the
    return value and the content of the output cells afterwards. *)

Inductive api_call :=
| CallInit (config : option burstfire_config_t)
| CallDeinit
| CallSetDuty (addr duty : Z)
| CallGetDuty (addr : Z) (duty : option Z)
| CallSetGrid60hz (addr : Z) (is_60hz : bool)
| CallGetStatus (addr : Z) (status : option Z)
| CallIsConnected (addr : Z)
| CallScanDevices (addresses : option (list Z)) (count : option Z)
| CallGetFirmwareVersion (addr : Z) (major minor patch : option Z)
| CallGetDeviceInfo (addr : Z) (info : option burstfire_device_info_t).

Inductive api_result :=
| ResErr (r : Z)
| ResByte (r : Z) (out : option Z)
| ResBool (b : bool)
| ResScan (o : outcome (Z * option (list Z) * option Z))
| ResVersion (r : Z) (major minor patch : option Z)
| ResInfo (r : Z) (info : option burstfire_device_info_t).

Definition lift_result {A} (f : A -> api_result) (m : M A) : M api_result :=
  let* a := m in ret (f a).

Definition idf_api (V : vendor) (c : api_call) : M api_result :=
  match c with
  | CallInit config => lift_result ResErr (Idf.burstfire_init V config)
  | CallDeinit => lift_result ResErr (Idf.burstfire_deinit V)
  | CallSetDuty addr duty => lift_result ResErr (Idf.burstfire_set_duty V addr duty)
  | CallGetDuty addr duty =>
    lift_result (fun x => ResByte (fst x) (snd x)) (Idf.burstfire_get_duty V addr duty)
  | CallSetGrid60hz addr b => lift_result ResErr (Idf.burstfire_set_grid_60hz V addr b)
  | CallGetStatus addr status =>
    lift_result (fun x => ResByte (fst x) (snd x)) (Idf.burstfire_get_status V addr status)
  | CallIsConnected addr => lift_result ResBool (Idf.burstfire_is_connected V addr)
  | CallScanDevices addresses count =>
    lift_result ResScan (Idf.burstfire_scan_devices V addresses count)
  | CallGetFirmwareVersion addr major minor patch =>
    lift_result (fun x => match x with (r, ma, mi, pa) => ResVersion r ma mi pa end)
      (Idf.burstfire_get_firmware_version V addr major minor patch)
  | CallGetDeviceInfo addr info =>
    lift_result (fun x => ResInfo (fst x) (snd x)) (Idf.burstfire_get_device_info V addr info)
  end.

Definition dual_api (V : vendor) (c : api_call) : M api_result :=
  match c with
  | CallInit config => lift_result ResErr (Dual.burstfire_init V config)
  | CallDeinit => lift_result ResErr (Dual.burstfire_deinit V)
  | CallSetDuty addr duty => lift_result ResErr (Dual.burstfire_set_duty V addr duty)
  | CallGetDuty addr duty =>
    lift_result (fun x => ResByte (fst x) (snd x)) (Dual.burstfire_get_duty V addr duty)
  | CallSetGrid60hz addr b => lift_result ResErr (Dual.burstfire_set_grid_60hz V addr b)
  | CallGetStatus addr status =>
    lift_result (fun x => ResByte (fst x) (snd x)) (Dual.burstfire_get_status V addr status)
  | CallIsConnected addr => lift_result ResBool (Dual.burstfire_is_connected V addr)
  | CallScanDevices addresses count =>
    lift_result ResScan (Dual.burstfire_scan_devices V addresses count)
  | CallGetFirmwareVersion addr major minor patch =>
    lift_result (fun x => match x with (r, ma, mi, pa) => ResVersion r ma mi pa end)
      (Dual.burstfire_get_firmware_version V addr major minor patch)
  | CallGetDeviceInfo addr info =>
    lift_result (fun x => ResInfo (fst x) (snd x)) (Dual.burstfire_get_device_info V addr info)
  end.

(** ** Mock platforms used in the examples *)

(** Ticks are milliseconds (a 1 kHz tick). *)
Definition ticks_1khz (ms : Z) : Z := ms.

(** Every call succeeds; every read stores 0x2A. *)
Definition bus_ok : vendor :=
  {| i2c_bus := fun _ _ => {| reply_code := ESP_OK; reply_data := Some 0x2A |};
     pdMS_TO_TICKS := ticks_1khz |}.

(** Only the devices at 0x21 and 0x23 acknowledge; everything that is not a
    transfer succeeds. *)
Definition bus_21_23 : vendor :=
  {| i2c_bus := fun _ c =>
       match c with
       | I2cMasterWriteToDevice _ a _ _ | I2cMasterWriteReadDevice _ a _ _ _ =>
         if (a =? 0x21) || (a =? 0x23)
         then {| reply_code := ESP_OK; reply_data := Some 1 |}
         else {| reply_code := ESP_FAIL; reply_data := None |}
       | _ => {| reply_code := ESP_OK; reply_data := None |}
       end;
     pdMS_TO_TICKS := ticks_1khz |}.

(** Devices acknowledge their address, but every register read fails. *)
Definition bus_read_fails : vendor :=
  {| i2c_bus := fun _ c =>
       match c with
       | I2cMasterWriteReadDevice _ _ _ _ _ => {| reply_code := ESP_FAIL; reply_data := None |}
       | _ => {| reply_code := ESP_OK; reply_data := None |}
       end;
     pdMS_TO_TICKS := ticks_1khz |}.

(** The major version reads as 7; the minor and patch reads fail. *)
Definition bus_minor_fails : vendor :=
  {| i2c_bus := fun _ c =>
       match c with
       | I2cMasterWriteReadDevice _ _ w _ _ =>
         if decide (w = [0x90])
         then {| reply_code := ESP_OK; reply_data := Some 7 |}
         else {| reply_code := ESP_FAIL; reply_data := None |}
       | _ => {| reply_code := ESP_OK; reply_data := None |}
       end;
     pdMS_TO_TICKS := ticks_1khz |}.

(** The bus works, but the driver cannot be deleted. *)
Definition bus_delete_fails : vendor :=
  {| i2c_bus := fun _ c =>
       match c with
       | I2cDriverDelete _ => {| reply_code := ESP_FAIL; reply_data := None |}
       | _ => {| reply_code := ESP_OK; reply_data := Some 0 |}
       end;
     pdMS_TO_TICKS := ticks_1khz |}.

(** [i2c_param_config] rejects its arguments. *)
Definition bus_rejects_config : vendor :=
  {| i2c_bus := fun _ c =>
       match c with
       | I2cParamConfig _ _ => {| reply_code := ESP_ERR_INVALID_ARG; reply_data := None |}
       | _ => {| reply_code := ESP_OK; reply_data := None |}
       end;
     pdMS_TO_TICKS := ticks_1khz |}.

Definition config0 : burstfire_config_t :=
  {| port := 0; sda_pin := 21; scl_pin := 22; clk_speed := 100000 |}.
Definition config1 : burstfire_config_t :=
  {| port := 1; sda_pin := 8; scl_pin := 9; clk_speed := 100000 |}.

(** A session initialised on port 0, nothing logged yet. *)
Definition ready_state : drv_state :=
  {| g_initialized := true; g_port := 0; bus_log := [] |}.

Definition info0 : burstfire_device_info_t :=
  {| address := 0; fw_major := 0; fw_minor := 0; fw_patch := 0; connected := false |}.
Definition info9 : burstfire_device_info_t :=
  {| address := 9; fw_major := 9; fw_minor := 9; fw_patch := 9; connected := true |}.

(** ** Vocabulary of the statements *)

(** The state after the calls [cs] went to the vendor driver and nothing else
    changed. *)
Definition logged (st : drv_state) (cs : list bus_call) : drv_state :=
  {| g_initialized := g_initialized st; g_port := g_port st;
     bus_log := bus_log st ++ cs |}.

(** The three transfers on the wire: the zero-length presence probe, the
    two-byte register write and the combined one-byte write, one-byte read. *)
Definition probe_call (V : vendor) (st : drv_state) (addr : Z) : bus_call :=
  I2cMasterWriteToDevice (g_port st) addr [] (pdMS_TO_TICKS V 100).
Definition write_call (V : vendor) (st : drv_state) (addr reg val : Z) : bus_call :=
  I2cMasterWriteToDevice (g_port st) addr [reg; val] (pdMS_TO_TICKS V 100).
Definition read_call (V : vendor) (st : drv_state) (addr reg : Z) : bus_call :=
  I2cMasterWriteReadDevice (g_port st) addr [Z.lor reg 0x80] 1 (pdMS_TO_TICKS V 100).

(** The bus configuration [burstfire_init] builds from its argument. *)
Definition i2c_config_of (config : burstfire_config_t) : i2c_config_t :=
  {| mode := I2C_MODE_MASTER;
     sda_io_num := sda_pin config;
     scl_io_num := scl_pin config;
     sda_pullup_en := GPIO_PULLUP_ENABLE;
     scl_pullup_en := GPIO_PULLUP_ENABLE;
     master_clk_speed := clk_speed config |}.

(** The vendor's answer to [c] when asked after the calls logged in [st]
    followed by [before]. *)
Definition answer (V : vendor) (st : drv_state) (before : list bus_call) (c : bus_call)
    : bus_reply :=
  i2c_bus V (bus_log st ++ before) c.

(** The addresses the sweep visits, in order. *)
Definition sweep_range : list Z := [0x20; 0x21; 0x22; 0x23].

(** The status of the probe of [a] during a sweep started in [st]: the probes
    of the lower addresses came before it. *)
Definition probe_status (V : vendor) (st : drv_state) (a : Z) : Z :=
  reply_code
    (answer V st (map (probe_call V st) (List.filter (fun b => b <? a) sweep_range))
       (probe_call V st a)).

(** An operation failed fast: it returned [r] with the outputs [out] it was
    given, and the state, log included, is the one it started from. *)
Definition fails_fast {A} (m : M A) (a : A) (st : drv_state) : Prop :=
  m st = (a, st).

(** Every operation of the ESP-IDF driver that returns [esp_err_t], Initialize
    apart, fails fast with [ESP_ERR_INVALID_STATE] in [st]. *)
Definition all_fail_fast (V : vendor) (st : drv_state) : Prop :=
  (forall addr duty,
      fails_fast (Idf.burstfire_set_duty V addr duty) ESP_ERR_INVALID_STATE st) /\
  (forall addr duty,
      fails_fast (Idf.burstfire_get_duty V addr duty) (ESP_ERR_INVALID_STATE, duty) st) /\
  (forall addr is_60hz,
      fails_fast (Idf.burstfire_set_grid_60hz V addr is_60hz) ESP_ERR_INVALID_STATE st) /\
  (forall addr status,
      fails_fast (Idf.burstfire_get_status V addr status) (ESP_ERR_INVALID_STATE, status) st) /\
  (forall addresses count,
      fails_fast (Idf.burstfire_scan_devices V addresses count)
        (Returns (ESP_ERR_INVALID_STATE, addresses, count)) st) /\
  (forall addr major minor patch,
      fails_fast (Idf.burstfire_get_firmware_version V addr major minor patch)
        (ESP_ERR_INVALID_STATE, major, minor, patch) st) /\
  (forall addr info,
      fails_fast (Idf.burstfire_get_device_info V addr info) (ESP_ERR_INVALID_STATE, info) st) /\
  fails_fast (Idf.burstfire_deinit V) ESP_ERR_INVALID_STATE st.

(** ** [burstfire_i2c_driver.cpp]: the dual-platform driver, Arduino branch

    Every [#ifdef ARDUINO] is resolved to its first branch: the bus is
    reached through the [Wire] object of the Arduino core. Each call of a
    [Wire] method is an event; the library is an oracle that sees the events
    so far and answers the one at hand with the method's return value. *)

Module Arduino.

Inductive wire_call :=
| WireBegin (sda scl : gpio_num_t)
| WireSetClock (frequency : Z)
| WireBeginTransmission (address : uint8_t)
| WireWrite (data : uint8_t)
| WireEndTransmission
| WireRequestFrom (address : uint8_t) (quantity : uint8_t)
| WireAvailable
| WireRead.

(** The statics of the Arduino build and the log of [Wire] calls. *)
Record state := {
  g_initialized : bool;
  g_port : i2c_port_t;
  g_sda_pin : gpio_num_t;
  g_scl_pin : gpio_num_t;
  wire_log : list wire_call
}.

Definition boot_state : state :=
  {| g_initialized := false; g_port := 0; g_sda_pin := 0; g_scl_pin := 0;
     wire_log := [] |}.

Definition M (A : Type) : Type := state -> A * state.

Definition ret {A} (a : A) : M A := fun st => (a, st).
Definition bind {A B} (m : M A) (k : A -> M B) : M B :=
  fun st => let (a, st') := m st in k a st'.

Declare Scope wire_scope.
Notation "'let*' x := m 'in' k" := (bind m (fun x => k))
  (at level 10, x pattern, m at level 100, k at level 200) : wire_scope.
Local Open Scope wire_scope.

Definition get_initialized : M bool := fun st => (g_initialized st, st).
Definition set_initialized (b : bool) : M unit := fun st =>
  (tt, {| g_initialized := b; g_port := g_port st; g_sda_pin := g_sda_pin st;
          g_scl_pin := g_scl_pin st; wire_log := wire_log st |}).
Definition set_port (p : i2c_port_t) : M unit := fun st =>
  (tt, {| g_initialized := g_initialized st; g_port := p; g_sda_pin := g_sda_pin st;
          g_scl_pin := g_scl_pin st; wire_log := wire_log st |}).
Definition set_sda_pin (p : gpio_num_t) : M unit := fun st =>
  (tt, {| g_initialized := g_initialized st; g_port := g_port st; g_sda_pin := p;
          g_scl_pin := g_scl_pin st; wire_log := wire_log st |}).
Definition set_scl_pin (p : gpio_num_t) : M unit := fun st =>
  (tt, {| g_initialized := g_initialized st; g_port := g_port st;
          g_sda_pin := g_sda_pin st; g_scl_pin := p; wire_log := wire_log st |}).

Section WithWire.
Context (W : list wire_call -> wire_call -> Z).

(** One call of a [Wire] method: answered from the log so far, then logged. *)
Definition wire_do (c : wire_call) : M Z := fun st =>
  (W (wire_log st) c,
   {| g_initialized := g_initialized st; g_port := g_port st;
      g_sda_pin := g_sda_pin st; g_scl_pin := g_scl_pin st;
      wire_log := wire_log st ++ [c] |}).

Definition write_reg (addr reg val : uint8_t) : M esp_err_t :=
  let* _ := wire_do (WireBeginTransmission addr) in
  let* _ := wire_do (WireWrite reg) in
  let* _ := wire_do (WireWrite val) in
  let* e := wire_do WireEndTransmission in
  ret (if e =? 0 then ESP_OK else ESP_FAIL).

(** [Wire.write] takes the [int] [0x80 | reg] as a byte; [*val = Wire.read()]
    stores the [int] it gets as a byte. *)
Definition read_reg (addr reg : uint8_t) (val : uint8_t) : M (esp_err_t * uint8_t) :=
  let* _ := wire_do (WireBeginTransmission addr) in
  let* _ := wire_do (WireWrite (u8 (Z.lor 0x80 reg))) in
  let* e := wire_do WireEndTransmission in
  if negb (e =? 0) then ret (ESP_FAIL, val) else
  let* n := wire_do (WireRequestFrom addr 1) in
  if negb (n =? 1) then ret (ESP_FAIL, val) else
  let* a := wire_do WireAvailable in
  if negb (a =? 0) then
    let* b := wire_do WireRead in
    ret (ESP_OK, u8 b)
  else ret (ESP_FAIL, val).

Definition burstfire_init (config : ptr burstfire_config_t) : M esp_err_t :=
  match config with
  | None => ret ESP_ERR_INVALID_ARG
  | Some config =>
    let* _ := wire_do (WireBegin (sda_pin config) (scl_pin config)) in
    let* _ := wire_do (WireSetClock (clk_speed config)) in
    let* _ := set_sda_pin (sda_pin config) in
    let* _ := set_scl_pin (scl_pin config) in
    let* _ := set_port (port config) in
    let* _ := set_initialized true in
    ret ESP_OK
  end.

Definition burstfire_deinit : M esp_err_t :=
  let* init := get_initialized in
  if negb init then ret ESP_ERR_INVALID_STATE else
  let* _ := set_initialized false in
  ret ESP_OK.

Definition burstfire_set_duty (addr duty : uint8_t) : M esp_err_t :=
  let* init := get_initialized in
  if negb init then ret ESP_ERR_INVALID_STATE else
  if 10 <? duty then ret ESP_ERR_INVALID_ARG else
  write_reg addr BURSTFIRE_REG_DUTY duty.

Definition burstfire_get_duty (addr : uint8_t) (duty : ptr uint8_t)
    : M (esp_err_t * ptr uint8_t) :=
  let* init := get_initialized in
  if negb init then ret (ESP_ERR_INVALID_STATE, duty) else
  match duty with
  | None => ret (ESP_ERR_INVALID_ARG, None)
  | Some d =>
    let* (r, d') := read_reg addr BURSTFIRE_REG_DUTY d in
    ret (r, Some d')
  end.

Definition burstfire_set_grid_60hz (addr : uint8_t) (is_60hz : bool) : M esp_err_t :=
  let* init := get_initialized in
  if negb init then ret ESP_ERR_INVALID_STATE else
  write_reg addr BURSTFIRE_REG_GRID_HZ (if is_60hz then 1 else 0).

Definition burstfire_get_status (addr : uint8_t) (status : ptr uint8_t)
    : M (esp_err_t * ptr uint8_t) :=
  let* init := get_initialized in
  if negb init then ret (ESP_ERR_INVALID_STATE, status) else
  match status with
  | None => ret (ESP_ERR_INVALID_ARG, None)
  | Some s =>
    let* (r, s') := read_reg addr BURSTFIRE_REG_STATUS s in
    ret (r, Some s')
  end.

Definition burstfire_is_connected (addr : uint8_t) : M bool :=
  let* init := get_initialized in
  if negb init then ret false else
  let* _ := wire_do (WireBeginTransmission addr) in
  let* e := wire_do WireEndTransmission in
  ret (e =? 0).

Fixpoint scan_loop (fuel : nat) (addr : uint8_t) (addresses : list uint8_t)
    (count : uint8_t) : M (outcome (list uint8_t * uint8_t)) :=
  match fuel with
  | O => ret OutOfFuel
  | S fuel' =>
    if addr <=? 0x23 then
      let* c := burstfire_is_connected addr in
      if c then
        if (Z.to_nat count <? length addresses)%nat then
          scan_loop fuel' (u8 (addr + 1))
            (<[Z.to_nat count := addr]> addresses) (u8 (count + 1))
        else ret OutOfBounds
      else scan_loop fuel' (u8 (addr + 1)) addresses count
    else ret (Returns (addresses, count))
  end.

Definition scan_fuel : nat := 257.

Definition burstfire_scan_devices (addresses : ptr (list uint8_t)) (count : ptr uint8_t)
    : M (outcome (esp_err_t * ptr (list uint8_t) * ptr uint8_t)) :=
  let* init := get_initialized in
  if negb init then ret (Returns (ESP_ERR_INVALID_STATE, addresses, count)) else
  match addresses, count with
  | Some arr, Some _ =>
    let cnt := 0 in
    let* o := scan_loop scan_fuel 0x20 arr cnt in
    match o with
    | Returns (arr', cnt') => ret (Returns (ESP_OK, Some arr', Some cnt'))
    | OutOfBounds => ret OutOfBounds
    | OutOfFuel => ret OutOfFuel
    end
  | _, _ => ret (Returns (ESP_ERR_INVALID_ARG, addresses, count))
  end.

Definition burstfire_get_firmware_version (addr : uint8_t)
    (major minor patch : ptr uint8_t)
    : M (esp_err_t * ptr uint8_t * ptr uint8_t * ptr uint8_t) :=
  let* init := get_initialized in
  if negb init then ret (ESP_ERR_INVALID_STATE, major, minor, patch) else
  match major, minor, patch with
  | Some ma, Some mi, Some pa =>
    let* (r, ma) := read_reg addr BURSTFIRE_REG_FW_MAJOR ma in
    if failed r then ret (r, Some ma, Some mi, Some pa) else
    let* (r, mi) := read_reg addr BURSTFIRE_REG_FW_MINOR mi in
    if failed r then ret (r, Some ma, Some mi, Some pa) else
    let* (r, pa) := read_reg addr BURSTFIRE_REG_FW_PATCH pa in
    ret (r, Some ma, Some mi, Some pa)
  | _, _, _ => ret (ESP_ERR_INVALID_ARG, major, minor, patch)
  end.

Definition burstfire_get_device_info (addr : uint8_t) (info : ptr burstfire_device_info_t)
    : M (esp_err_t * ptr burstfire_device_info_t) :=
  let* init := get_initialized in
  if negb init then ret (ESP_ERR_INVALID_STATE, info) else
  match info with
  | None => ret (ESP_ERR_INVALID_ARG, None)
  | Some info =>
    let info := set_address info addr in
    let* c := burstfire_is_connected addr in
    let info := set_connected info c in
    if connected info then
      let* (r, ma, mi, pa) := burstfire_get_firmware_version addr
          (Some (fw_major info)) (Some (fw_minor info)) (Some (fw_patch info)) in
      let info := set_fw_major info (default (fw_major info) ma) in
      let info := set_fw_minor info (default (fw_minor info) mi) in
      let info := set_fw_patch info (default (fw_patch info) pa) in
      if failed r then
        let info := set_connected info false in
        ret (r, Some info)
      else ret (ESP_OK, Some info)
    else
      let info := set_fw_patch info 0 in
      let info := set_fw_minor info (fw_patch info) in
      let info := set_fw_major info (fw_minor info) in
      ret (ESP_OK, Some info)
  end.

(** The public surface of the Arduino build. *)
Definition api (c : api_call) : M api_result :=
  match c with
  | CallInit config => let* r := burstfire_init config in ret (ResErr r)
  | CallDeinit => let* r := burstfire_deinit in ret (ResErr r)
  | CallSetDuty addr duty => let* r := burstfire_set_duty addr duty in ret (ResErr r)
  | CallGetDuty addr duty =>
    let* x := burstfire_get_duty addr duty in ret (ResByte (fst x) (snd x))
  | CallSetGrid60hz addr b => let* r := burstfire_set_grid_60hz addr b in ret (ResErr r)
  | CallGetStatus addr status =>
    let* x := burstfire_get_status addr status in ret (ResByte (fst x) (snd x))
  | CallIsConnected addr => let* b := burstfire_is_connected addr in ret (ResBool b)
  | CallScanDevices addresses count =>
    let* o := burstfire_scan_devices addresses count in ret (ResScan o)
  | CallGetFirmwareVersion addr major minor patch =>
    let* (r, ma, mi, pa) := burstfire_get_firmware_version addr major minor patch in
    ret (ResVersion r ma mi pa)
  | CallGetDeviceInfo addr info =>
    let* x := burstfire_get_device_info addr info in ret (ResInfo (fst x) (snd x))
  end.
End WithWire.

(** The state after the [Wire] calls [cs] and nothing else. *)
Definition logged (st : state) (cs : list wire_call) : state :=
  {| g_initialized := g_initialized st; g_port := g_port st;
     g_sda_pin := g_sda_pin st; g_scl_pin := g_scl_pin st;
     wire_log := wire_log st ++ cs |}.

(** A session initialised on the default pins, nothing logged yet. *)
Definition ready_state : state :=
  {| g_initialized := true; g_port := 0; g_sda_pin := 21; g_scl_pin := 22;
     wire_log := [] |}.

(** A library on a healthy bus: transmissions end with 0, one byte is
    received on request and it reads as 0x2A. *)
Definition wire_ok (h : list wire_call) (c : wire_call) : Z :=
  match c with
  | WireEndTransmission => 0
  | WireRead => 0x2A
  | _ => 1
  end.

(** Addresses are acknowledged, but no byte ever comes back on request. *)
Definition wire_no_data (h : list wire_call) (c : wire_call) : Z :=
  match c with
  | WireEndTransmission => 0
  | WireRequestFrom _ _ => 0
  | WireAvailable => 0
  | WireRead => -1
  | _ => 1
  end.

(** Nothing acknowledges: every transmission ends with 2 (address NACK). *)
Definition wire_nack (h : list wire_call) (c : wire_call) : Z :=
  match c with
  | WireEndTransmission => 2
  | WireRequestFrom _ _ => 0
  | WireAvailable => 0
  | WireRead => -1
  | _ => 1
  end.

End Arduino.

(** ** Further vocabulary *)

(** The status an operation handed back, if it returns one. *)
Definition status_of (r : api_result) : option Z :=
  match r with
  | ResErr r => Some r
  | ResByte r _ => Some r
  | ResBool _ => None
  | ResScan (Returns (r, _, _)) => Some r
  | ResScan _ => None
  | ResVersion r _ _ _ => Some r
  | ResInfo r _ => Some r
  end.

(** The device operations: everything but Initialize and Shutdown. *)
Definition is_device_op (c : api_call) : bool :=
  match c with
  | CallInit _ | CallDeinit => false
  | _ => true
  end.

(** What an operation hands back on an uninitialised session: the
    not-initialized status, or [false] for the probe, with the output pointers
    as they came in. *)
Definition uninitialized_result (c : api_call) : api_result :=
  match c with
  | CallInit _ | CallDeinit | CallSetDuty _ _ | CallSetGrid60hz _ _ =>
    ResErr ESP_ERR_INVALID_STATE
  | CallGetDuty _ out | CallGetStatus _ out => ResByte ESP_ERR_INVALID_STATE out
  | CallIsConnected _ => ResBool false
  | CallScanDevices addresses count =>
    ResScan (Returns (ESP_ERR_INVALID_STATE, addresses, count))
  | CallGetFirmwareVersion _ ma mi pa => ResVersion ESP_ERR_INVALID_STATE ma mi pa
  | CallGetDeviceInfo _ info => ResInfo ESP_ERR_INVALID_STATE info
  end.

(** The most vendor calls one operation makes. *)
Definition max_transfers (c : api_call) : nat :=
  match c with
  | CallInit _ => 2
  | CallDeinit => 1
  | CallSetDuty _ _ | CallGetDuty _ _ | CallSetGrid60hz _ _ | CallGetStatus _ _
  | CallIsConnected _ => 1
  | CallScanDevices _ _ => 4
  | CallGetFirmwareVersion _ _ _ _ => 3
  | CallGetDeviceInfo _ _ => 4
  end.

(** The transfers the device operations are seen to make: on the stored port
    with the 100 ms timeout, and either the empty probe, a write of a duty of
    at most 10 to register 0x00, a write of 0 or 1 to register 0x02, or a
    one-byte read of register 0x00, 0x10, 0x11, 0x12 or 0x13. *)
Definition allowed_transfer (V : vendor) (st : drv_state) (c : bus_call) : bool :=
  match c with
  | I2cMasterWriteToDevice p _ data t =>
    (p =? g_port st) && (t =? pdMS_TO_TICKS V 100) &&
    match data with
    | [] => true
    | [reg; val] =>
      ((reg =? 0x00) && (val <=? 10)) || ((reg =? 0x02) && ((val =? 0) || (val =? 1)))
    | _ => false
    end
  | I2cMasterWriteReadDevice p _ w n t =>
    (p =? g_port st) && (t =? pdMS_TO_TICKS V 100) && (n =? 1) &&
    match w with
    | [cmd] => (cmd =? 0x80) || (cmd =? 0x90) || (cmd =? 0x91) || (cmd =? 0x92)
               || (cmd =? 0x93)
    | _ => false
    end
  | _ => false
  end.

(** The statuses the driver makes up itself, as opposed to one passed on from
    the vendor. *)
Definition plain_status (r : Z) : Prop :=
  r = ESP_OK \/ r = ESP_FAIL \/ r = ESP_ERR_INVALID_ARG \/ r = ESP_ERR_INVALID_STATE.

(** In the Arduino build the probe of [a] is a transmission without payload. *)
Definition wire_probe (a : Z) : list Arduino.wire_call :=
  [Arduino.WireBeginTransmission a; Arduino.WireEndTransmission].

(** The answer to the probe of [a] during a sweep of the Arduino build started
    in [st]: the probes of the lower addresses came before it. *)
Definition wire_probe_status (W : list Arduino.wire_call -> Arduino.wire_call -> Z)
    (st : Arduino.state) (a : Z) : Z :=
  W (Arduino.wire_log st ++
       concat (map wire_probe (List.filter (fun b => b <? a) sweep_range)) ++
       [Arduino.WireBeginTransmission a])
    Arduino.WireEndTransmission.

(** The operations whose status, past the guards, is that of a register
    access. *)
Definition register_op (c : api_call) : bool :=
  match c with
  | CallSetDuty _ _ | CallGetDuty _ _ | CallSetGrid60hz _ _ | CallGetStatus _ _
  | CallGetFirmwareVersion _ _ _ _ => true
  | _ => false
  end.

(** * Properties *)

(** Symbolic execution of the monad and of the vendor entry points. *)
Ltac drv_step :=
  unfold bind, ret, get_initialized, get_port, set_initialized, set_port,
    i2c_param_config, i2c_driver_install, i2c_driver_delete,
    i2c_master_write_to_device, i2c_master_write_read_device, bus_do; simpl.

Ltac idf_unfold :=
  unfold Idf.burstfire_init, Idf.burstfire_deinit, Idf.burstfire_set_duty,
    Idf.burstfire_get_duty, Idf.burstfire_set_grid_60hz, Idf.burstfire_get_status,
    Idf.burstfire_get_device_info, Idf.burstfire_get_firmware_version,
    Idf.burstfire_scan_devices, Idf.burstfire_is_connected,
    Idf.write_reg, Idf.read_reg.

Ltac dual_unfold :=
  unfold Dual.burstfire_init, Dual.burstfire_deinit, Dual.burstfire_set_duty,
    Dual.burstfire_get_duty, Dual.burstfire_set_grid_60hz, Dual.burstfire_get_status,
    Dual.burstfire_get_device_info, Dual.burstfire_get_firmware_version,
    Dual.burstfire_scan_devices, Dual.burstfire_is_connected,
    Dual.write_reg, Dual.read_reg.

Lemma logged_nil st : logged st [] = st.
Proof. destruct st; unfold logged; simpl. by rewrite app_nil_r. Qed.

Lemma failed_false r : failed r = false <-> r = ESP_OK.
Proof.
  unfold failed. rewrite negb_false_iff. apply Z.eqb_eq.
Qed.

Lemma failed_true r : failed r = true <-> r <> ESP_OK.
Proof.
  unfold failed. rewrite negb_true_iff. apply Z.eqb_neq.
Qed.

(** ** Set duty *)

Lemma set_duty_uninitialized V addr duty st :
  g_initialized st = false ->
  Idf.burstfire_set_duty V addr duty st = (ESP_ERR_INVALID_STATE, st).
Proof. intros H. idf_unfold. drv_step. by rewrite H. Qed.

Lemma set_duty_too_large V addr duty st :
  g_initialized st = true -> 10 < duty ->
  Idf.burstfire_set_duty V addr duty st = (ESP_ERR_INVALID_ARG, st).
Proof.
  intros H Hd. idf_unfold. drv_step. rewrite H. simpl.
  apply Z.ltb_lt in Hd. by rewrite Hd.
Qed.

Lemma set_duty_in_range V addr duty st :
  g_initialized st = true -> duty <= 10 ->
  Idf.burstfire_set_duty V addr duty st =
    (reply_code (answer V st [] (write_call V st addr BURSTFIRE_REG_DUTY duty)),
     logged st [write_call V st addr BURSTFIRE_REG_DUTY duty]).
Proof.
  intros H Hd. idf_unfold. drv_step. rewrite H. simpl.
  assert ((10 <? duty) = false) as -> by (apply Z.ltb_ge; lia).
  unfold answer. by rewrite app_nil_r.
Qed.

(** C1, as stated, fails: the state guard comes before the argument guard.
    On a session that was never initialised, duty 11 is answered with
    [ESP_ERR_INVALID_STATE], not with [ESP_ERR_INVALID_ARG], and duty 5 does
    not succeed although it lies in 0..10. *)
Lemma set_duty_state_guard_first :
  fst (Idf.burstfire_set_duty bus_ok 0x20 11 boot_state) <> ESP_ERR_INVALID_ARG /\
  fst (Idf.burstfire_set_duty bus_ok 0x20 5 boot_state) <> ESP_OK.
Proof. split; vm_compute; discriminate. Qed.

(** C1 (amended). On an initialised session [burstfire_set_duty] answers a
    duty above 10 with [ESP_ERR_INVALID_ARG] and leaves the bus alone, and for
    a duty in 0..10 it returns whatever the write of [[0x00; duty]] returns,
    so that it succeeds iff the duty is at most 10 and that write succeeds. On
    an uninitialised session it answers every duty, 11 included, with
    [ESP_ERR_INVALID_STATE]. *)
Theorem set_duty_guards V addr duty st :
  0 <= duty < 256 ->
  let r := fst (Idf.burstfire_set_duty V addr duty st) in
  let st' := snd (Idf.burstfire_set_duty V addr duty st) in
  let w := write_call V st addr BURSTFIRE_REG_DUTY duty in
  (g_initialized st = false -> r = ESP_ERR_INVALID_STATE /\ st' = st) /\
  (g_initialized st = true -> 10 < duty -> r = ESP_ERR_INVALID_ARG /\ st' = st) /\
  (g_initialized st = true -> duty <= 10 ->
     r = reply_code (answer V st [] w) /\ st' = logged st [w]) /\
  (g_initialized st = true ->
     (r = ESP_OK <-> duty <= 10 /\ reply_code (answer V st [] w) = ESP_OK)).
Proof.
  intros Hrange r st' w. subst r st' w.
  split; [|split; [|split]].
  - intros Hoff. by rewrite set_duty_uninitialized.
  - intros Hon Hbig. by rewrite set_duty_too_large.
  - intros Hon Hsmall. by rewrite set_duty_in_range.
  - intros Hon. destruct (Z_lt_le_dec 10 duty) as [Hbig|Hsmall].
    + rewrite set_duty_too_large by done. cbn [fst]. split.
      * discriminate.
      * intros [Hle _]. lia.
    + rewrite set_duty_in_range by done. cbn [fst]. split.
      * intros Hok. by split.
      * by intros [_ Hok].
Qed.

Lemma set_duty_guards_witness :
  let r := fst (Idf.burstfire_set_duty bus_ok 0x20 11 ready_state) in
  let st' := snd (Idf.burstfire_set_duty bus_ok 0x20 11 ready_state) in
  let w := write_call bus_ok ready_state 0x20 BURSTFIRE_REG_DUTY 11 in
  (g_initialized ready_state = false -> r = ESP_ERR_INVALID_STATE /\ st' = ready_state) /\
  (g_initialized ready_state = true -> 10 < 11 ->
     r = ESP_ERR_INVALID_ARG /\ st' = ready_state) /\
  (g_initialized ready_state = true -> 11 <= 10 ->
     r = reply_code (answer bus_ok ready_state [] w) /\ st' = logged ready_state [w]) /\
  (g_initialized ready_state = true ->
     (r = ESP_OK <-> 11 <= 10 /\ reply_code (answer bus_ok ready_state [] w) = ESP_OK)).
Proof. apply (set_duty_guards bus_ok 0x20 11 ready_state). lia. Defined.

(** ** The initialised guard *)

Lemma uninitialized_all_fail_fast V st :
  g_initialized st = false -> all_fail_fast V st.
Proof.
  intros H. unfold all_fail_fast, fails_fast.
  repeat split; intros; idf_unfold; drv_step; by rewrite H.
Qed.

Lemma deinit_clears_flag V st :
  g_initialized (snd (Idf.burstfire_deinit V st)) = false.
Proof.
  idf_unfold. drv_step. by destruct (g_initialized st) eqn:E.
Qed.

(** C2. In a state that is uninitialised, be it the state at boot or the
    state any call of [burstfire_deinit] leaves behind, every operation that
    returns [esp_err_t] (set and get duty, set grid frequency, get status,
    scan, get firmware version, get device info, and [burstfire_deinit]
    itself, hence a second Shutdown in a row) returns
    [ESP_ERR_INVALID_STATE], hands back its outputs untouched and leaves the
    state and the log of vendor calls exactly as they were. *)
Theorem uninitialized_fails_fast V st :
  st = boot_state \/ g_initialized st = false \/
    (exists st0, st = snd (Idf.burstfire_deinit V st0)) ->
  all_fail_fast V st.
Proof.
  intros [-> | [H | [st0 ->]]]; apply uninitialized_all_fail_fast.
  - reflexivity.
  - exact H.
  - apply deinit_clears_flag.
Qed.

Lemma uninitialized_fails_fast_witness :
  all_fail_fast bus_ok (snd (Idf.burstfire_deinit bus_ok ready_state)).
Proof.
  apply (uninitialized_fails_fast bus_ok (snd (Idf.burstfire_deinit bus_ok ready_state))).
  right. right. exists ready_state. reflexivity.
Defined.

(** ** Wire format *)

Lemma lor_0x80_byte reg :
  0 <= reg < 256 -> u8 (Z.lor 0x80 reg) = Z.lor reg 0x80.
Proof.
  intros Hreg. unfold u8. rewrite Z.lor_comm. apply Z.mod_small.
  split.
  - apply Z.lor_nonneg. lia.
  - change 256 with (2 ^ 8). destruct (Z.eq_dec (Z.lor reg 128) 0) as [->|Hne]; [lia|].
    apply Z.log2_lt_pow2.
    + assert (0 <= Z.lor reg 128) by (apply Z.lor_nonneg; lia). lia.
    + rewrite Z.log2_lor by lia.
      change (Z.log2 128) with 7.
      destruct (Z.eq_dec reg 0) as [->|Hr]; [simpl; lia|].
      assert (Z.log2 reg < 8) by (apply Z.log2_lt_pow2; lia). lia.
Qed.

Lemma write_reg_run V addr reg val st :
  Idf.write_reg V addr reg val st =
    (reply_code (answer V st [] (write_call V st addr reg val)),
     logged st [write_call V st addr reg val]).
Proof.
  idf_unfold. drv_step. unfold answer. by rewrite app_nil_r.
Qed.

Lemma read_reg_run V addr reg buf st :
  0 <= reg < 256 ->
  Idf.read_reg V addr reg buf st =
    (let r := answer V st [] (read_call V st addr reg) in
     (reply_code r, default buf (reply_data r)),
     logged st [read_call V st addr reg]).
Proof.
  intros Hreg. idf_unfold. drv_step. unfold answer, read_call, logged.
  by rewrite app_nil_r, lor_0x80_byte.
Qed.

(** C5. A register write makes one vendor call, a write of exactly the two
    bytes [[reg; val]] to [addr]; a register read makes one vendor call, the
    combined write-then-read transfer to [addr] that writes exactly the one
    byte [reg | 0x80] and reads one byte. Either returns the status of that
    call unchanged. *)
Theorem register_wire_format V addr reg val buf st :
  0 <= reg < 256 ->
  let w := I2cMasterWriteToDevice (g_port st) addr [reg; val] (pdMS_TO_TICKS V 100) in
  let r := I2cMasterWriteReadDevice (g_port st) addr [Z.lor reg 0x80] 1
             (pdMS_TO_TICKS V 100) in
  Idf.write_reg V addr reg val st =
    (reply_code (i2c_bus V (bus_log st) w), logged st [w]) /\
  length [reg; val] = 2%nat /\
  fst (fst (Idf.read_reg V addr reg buf st)) = reply_code (i2c_bus V (bus_log st) r) /\
  snd (Idf.read_reg V addr reg buf st) = logged st [r] /\
  length [Z.lor reg 0x80] = 1%nat.
Proof.
  intros Hreg w r. subst w r.
  rewrite write_reg_run, read_reg_run by done.
  unfold answer, write_call, read_call. rewrite app_nil_r. simpl. done.
Qed.

Lemma register_wire_format_witness :
  Idf.write_reg bus_ok 0x20 0x02 1 ready_state =
    (ESP_OK, logged ready_state [I2cMasterWriteToDevice 0 0x20 [0x02; 1] 100]) /\
  length [0x02; 1] = 2%nat /\
  fst (fst (Idf.read_reg bus_ok 0x20 0x13 0 ready_state)) = ESP_OK /\
  snd (Idf.read_reg bus_ok 0x20 0x13 0 ready_state) =
    logged ready_state [I2cMasterWriteReadDevice 0 0x20 [0x93] 1 100] /\
  length [0x93] = 1%nat.
Proof.
  split; [|split; [|split; [|split]]].
  - apply (register_wire_format bus_ok 0x20 0x02 1 0 ready_state). lia.
  - reflexivity.
  - apply (register_wire_format bus_ok 0x20 0x13 1 0 ready_state). lia.
  - apply (register_wire_format bus_ok 0x20 0x13 1 0 ready_state). lia.
  - reflexivity.
Defined.

(** ** Presence probe *)

Lemma is_connected_run V addr st :
  g_initialized st = true ->
  Idf.burstfire_is_connected V addr st =
    (reply_code (answer V st [] (probe_call V st addr)) =? ESP_OK,
     logged st [probe_call V st addr]).
Proof.
  intros H. idf_unfold. drv_step. rewrite H. simpl.
  unfold answer. by rewrite app_nil_r.
Qed.

Lemma is_connected_uninitialized V addr st :
  g_initialized st = false ->
  Idf.burstfire_is_connected V addr st = (false, st).
Proof. intros H. idf_unfold. drv_step. by rewrite H. Qed.

(** ** Firmware version *)

Section FirmwareVersion.
Context (V : vendor) (addr : Z) (st : drv_state).

(** The three reads in the order the driver issues them, and the vendor's
    answer to each given that the earlier ones were made. *)
Let c1 := read_call V st addr BURSTFIRE_REG_FW_MAJOR.
Let c2 := read_call V st addr BURSTFIRE_REG_FW_MINOR.
Let c3 := read_call V st addr BURSTFIRE_REG_FW_PATCH.
Let r1 := answer V st [] c1.
Let r2 := answer V st [c1] c2.
Let r3 := answer V st [c1; c2] c3.

Lemma firmware_version_run ma mi pa :
  g_initialized st = true ->
  Idf.burstfire_get_firmware_version V addr (Some ma) (Some mi) (Some pa) st =
    if failed (reply_code r1) then
      ((reply_code r1, Some (default ma (reply_data r1)), Some mi, Some pa),
       logged st [c1])
    else if failed (reply_code r2) then
      ((reply_code r2, Some (default ma (reply_data r1)),
        Some (default mi (reply_data r2)), Some pa),
       logged st [c1; c2])
    else
      ((reply_code r3, Some (default ma (reply_data r1)),
        Some (default mi (reply_data r2)), Some (default pa (reply_data r3))),
       logged st [c1; c2; c3]).
Proof.
  intros H. subst r1 r2 r3 c1 c2 c3. unfold answer, logged.
  destruct st as [ini p lg]. simpl in H. subst ini.
  idf_unfold. drv_step.
  rewrite app_nil_r.
  change (u8 (Z.lor 128 BURSTFIRE_REG_FW_MAJOR)) with (Z.lor BURSTFIRE_REG_FW_MAJOR 128).
  change (u8 (Z.lor 128 BURSTFIRE_REG_FW_MINOR)) with (Z.lor BURSTFIRE_REG_FW_MINOR 128).
  change (u8 (Z.lor 128 BURSTFIRE_REG_FW_PATCH)) with (Z.lor BURSTFIRE_REG_FW_PATCH 128).
  unfold read_call.
  destruct (failed _) eqn:E1; simpl; [done|].
  destruct (failed (reply_code (i2c_bus V (_ ++ [_]) _))) eqn:E2; simpl.
  - by rewrite <- app_assoc.
  - by rewrite <- !app_assoc.
Qed.
End FirmwareVersion.

Lemma logged_logged st a b : logged (logged st a) b = logged st (a ++ b).
Proof. unfold logged; simpl. by rewrite app_assoc. Qed.

Lemma answer_logged V st cs before c :
  answer V (logged st cs) before c = answer V st (cs ++ before) c.
Proof. unfold answer, logged; simpl. by rewrite app_assoc. Qed.

Lemma read_call_logged V st cs addr reg :
  read_call V (logged st cs) addr reg = read_call V st addr reg.
Proof. reflexivity. Qed.

Lemma probe_call_logged V st cs addr :
  probe_call V (logged st cs) addr = probe_call V st addr.
Proof. reflexivity. Qed.


(** C6. On an initialised session with three non-null outputs,
    [burstfire_get_firmware_version] reads major, then minor, then patch. It
    stops at the first read that fails and returns that status: the log then
    ends with the failing read, and the outputs of the registers after it hold
    what they held before. *)
Theorem firmware_version_sequential V addr ma mi pa st :
  g_initialized st = true ->
  let c1 := read_call V st addr BURSTFIRE_REG_FW_MAJOR in
  let c2 := read_call V st addr BURSTFIRE_REG_FW_MINOR in
  let c3 := read_call V st addr BURSTFIRE_REG_FW_PATCH in
  let r1 := answer V st [] c1 in
  let r2 := answer V st [c1] c2 in
  let r3 := answer V st [c1; c2] c3 in
  let res := Idf.burstfire_get_firmware_version V addr (Some ma) (Some mi) (Some pa) st in
  (reply_code r1 <> ESP_OK ->
     res = ((reply_code r1, Some (default ma (reply_data r1)), Some mi, Some pa),
            logged st [c1])) /\
  (reply_code r1 = ESP_OK -> reply_code r2 <> ESP_OK ->
     res = ((reply_code r2, Some (default ma (reply_data r1)),
             Some (default mi (reply_data r2)), Some pa),
            logged st [c1; c2])) /\
  (reply_code r1 = ESP_OK -> reply_code r2 = ESP_OK ->
     res = ((reply_code r3, Some (default ma (reply_data r1)),
             Some (default mi (reply_data r2)), Some (default pa (reply_data r3))),
            logged st [c1; c2; c3])).
Proof.
  intros Hinit c1 c2 c3 r1 r2 r3 res. subst res.
  rewrite firmware_version_run by exact Hinit. cbv zeta.
  fold c1 c2 c3. fold r1 r2 r3.
  repeat split.
  - intros H1. apply failed_true in H1. by rewrite H1.
  - intros H1 H2. apply failed_false in H1. apply failed_true in H2.
    by rewrite H1, H2.
  - intros H1 H2. apply failed_false in H1, H2. by rewrite H1, H2.
Qed.

Lemma firmware_version_sequential_witness :
  Idf.burstfire_get_firmware_version bus_minor_fails 0x20 (Some 1) (Some 2) (Some 3)
    ready_state =
  ((ESP_FAIL, Some 7, Some 2, Some 3),
   logged ready_state [I2cMasterWriteReadDevice 0 0x20 [0x90] 1 100;
                       I2cMasterWriteReadDevice 0 0x20 [0x91] 1 100]).
Proof.
  apply (firmware_version_sequential bus_minor_fails 0x20 1 2 3 ready_state);
    [reflexivity | reflexivity | vm_compute; discriminate].
Defined.

(** ** Device info *)

Section DeviceInfo.
Context (V : vendor) (addr : Z) (info : burstfire_device_info_t) (st : drv_state).

Let p := probe_call V st addr.
Let c1 := read_call V st addr BURSTFIRE_REG_FW_MAJOR.
Let c2 := read_call V st addr BURSTFIRE_REG_FW_MINOR.
Let c3 := read_call V st addr BURSTFIRE_REG_FW_PATCH.
Let r1 := answer V st [p] c1.
Let r2 := answer V st [p; c1] c2.
Let r3 := answer V st [p; c1; c2] c3.

(** The snapshot after the reads: [n] of the three fields went through a
    vendor read, the others are as in [info]. *)
Let snapshot (n : nat) (conn : bool) : burstfire_device_info_t :=
  {| address := addr;
     fw_major := if (1 <=? n)%nat then default (fw_major info) (reply_data r1)
                 else fw_major info;
     fw_minor := if (2 <=? n)%nat then default (fw_minor info) (reply_data r2)
                 else fw_minor info;
     fw_patch := if (3 <=? n)%nat then default (fw_patch info) (reply_data r3)
                 else fw_patch info;
     connected := conn |}.

Lemma device_info_run :
  g_initialized st = true ->
  Idf.burstfire_get_device_info V addr (Some info) st =
    if reply_code (answer V st [] p) =? ESP_OK then
      if failed (reply_code r1) then
        ((reply_code r1, Some (snapshot 1 false)), logged st [p; c1])
      else if failed (reply_code r2) then
        ((reply_code r2, Some (snapshot 2 false)), logged st [p; c1; c2])
      else if failed (reply_code r3) then
        ((reply_code r3, Some (snapshot 3 false)), logged st [p; c1; c2; c3])
      else
        ((ESP_OK, Some (snapshot 3 true)), logged st [p; c1; c2; c3])
    else
      ((ESP_OK,
        Some {| address := addr; fw_major := 0; fw_minor := 0; fw_patch := 0;
                connected := false |}),
       logged st [p]).
Proof.
  intros Hinit.
  unfold Idf.burstfire_get_device_info, bind at 1, get_initialized.
  rewrite Hinit. cbn [negb].
  unfold bind at 1. rewrite is_connected_run by exact Hinit.
  fold p. destruct (reply_code (answer V st [] p) =? ESP_OK).
  - cbn [connected set_connected set_address set_fw_major set_fw_minor set_fw_patch
         fw_major fw_minor fw_patch address].
    unfold bind, ret.
    rewrite firmware_version_run by exact Hinit. cbv zeta.
    rewrite !read_call_logged, !answer_logged, !logged_logged.
    cbn [app]. fold c1 c2 c3. fold r1 r2 r3.
    destruct (failed (reply_code r1)) eqn:E1.
    { rewrite E1. reflexivity. }
    destruct (failed (reply_code r2)) eqn:E2.
    { rewrite E2. reflexivity. }
    destruct (failed (reply_code r3)) eqn:E3; reflexivity.
  - reflexivity.
Qed.
End DeviceInfo.

(** C7. On an initialised session with a non-null snapshot, when the presence
    probe of [addr] is not acknowledged, [burstfire_get_device_info] returns
    [ESP_OK] with [connected = false] and the firmware triple (0, 0, 0), and
    the probe is the only vendor call it makes. *)
Theorem device_info_absent V addr info st :
  g_initialized st = true ->
  reply_code (answer V st [] (probe_call V st addr)) <> ESP_OK ->
  Idf.burstfire_get_device_info V addr (Some info) st =
    ((ESP_OK,
      Some {| address := addr; fw_major := 0; fw_minor := 0; fw_patch := 0;
              connected := false |}),
     logged st [probe_call V st addr]).
Proof.
  intros Hinit Hprobe. rewrite device_info_run by exact Hinit. cbv zeta.
  apply Z.eqb_neq in Hprobe. rewrite Hprobe. reflexivity.
Qed.

Lemma device_info_absent_witness :
  Idf.burstfire_get_device_info bus_21_23 0x20 (Some info9) ready_state =
    ((ESP_OK,
      Some {| address := 0x20; fw_major := 0; fw_minor := 0; fw_patch := 0;
              connected := false |}),
     logged ready_state [I2cMasterWriteToDevice 0 0x20 [] 100]).
Proof.
  apply (device_info_absent bus_21_23 0x20 info9 ready_state);
    [reflexivity | vm_compute; discriminate].
Defined.

(** C4, as stated, fails: the reads are not rolled back. When the major
    version reads as 7 and the minor read then fails, the firmware version
    read has failed and [connected] is [false], yet [fw_major] holds 7 and not
    the 9 it held before. *)
Lemma device_info_keeps_read_major :
  reply_code (answer bus_minor_fails ready_state [] (probe_call bus_minor_fails ready_state 0x20))
    = ESP_OK /\
  exists info',
    fst (Idf.burstfire_get_device_info bus_minor_fails 0x20 (Some info9) ready_state)
      = (ESP_FAIL, Some info') /\
    connected info' = false /\
    fw_major info' <> fw_major info9.
Proof.
  split; [reflexivity|].
  eexists. split; [vm_compute; reflexivity|].
  split; [reflexivity | vm_compute; discriminate].
Qed.

(** C4 (amended). On an initialised session with a non-null snapshot, when
    [addr] acknowledges the probe and a firmware read fails,
    [burstfire_get_device_info] sets [connected = false] and returns the
    status of the failing read. The version fields of the registers after the
    failing one keep their prior content; those read before it hold what was
    read; the field of the failing register holds what the vendor call stored
    there, its prior content if it stored nothing. So when the major read
    fails without storing, all three version fields are as before. *)
Theorem device_info_read_failure V addr info st :
  g_initialized st = true ->
  let p := probe_call V st addr in
  let c1 := read_call V st addr BURSTFIRE_REG_FW_MAJOR in
  let c2 := read_call V st addr BURSTFIRE_REG_FW_MINOR in
  let c3 := read_call V st addr BURSTFIRE_REG_FW_PATCH in
  let r1 := answer V st [p] c1 in
  let r2 := answer V st [p; c1] c2 in
  let r3 := answer V st [p; c1; c2] c3 in
  let res := Idf.burstfire_get_device_info V addr (Some info) st in
  reply_code (answer V st [] p) = ESP_OK ->
  (reply_code r1 <> ESP_OK ->
     res = ((reply_code r1,
             Some {| address := addr;
                     fw_major := default (fw_major info) (reply_data r1);
                     fw_minor := fw_minor info;
                     fw_patch := fw_patch info;
                     connected := false |}),
            logged st [p; c1])) /\
  (reply_code r1 <> ESP_OK -> reply_data r1 = None ->
     res = ((reply_code r1,
             Some {| address := addr;
                     fw_major := fw_major info;
                     fw_minor := fw_minor info;
                     fw_patch := fw_patch info;
                     connected := false |}),
            logged st [p; c1])) /\
  (reply_code r1 = ESP_OK -> reply_code r2 <> ESP_OK ->
     res = ((reply_code r2,
             Some {| address := addr;
                     fw_major := default (fw_major info) (reply_data r1);
                     fw_minor := default (fw_minor info) (reply_data r2);
                     fw_patch := fw_patch info;
                     connected := false |}),
            logged st [p; c1; c2])) /\
  (reply_code r1 = ESP_OK -> reply_code r2 = ESP_OK -> reply_code r3 <> ESP_OK ->
     res = ((reply_code r3,
             Some {| address := addr;
                     fw_major := default (fw_major info) (reply_data r1);
                     fw_minor := default (fw_minor info) (reply_data r2);
                     fw_patch := default (fw_patch info) (reply_data r3);
                     connected := false |}),
            logged st [p; c1; c2; c3])).
Proof.
  intros Hinit p c1 c2 c3 r1 r2 r3 res Hprobe.
  subst res. rewrite device_info_run by done. cbv zeta.
  fold p. fold c1 c2 c3. fold r1 r2 r3.
  apply Z.eqb_eq in Hprobe. rewrite Hprobe.
  repeat split.
  - intros H1. apply failed_true in H1. by rewrite H1.
  - intros H1 Hd. apply failed_true in H1. by rewrite H1, Hd.
  - intros H1 H2. apply failed_false in H1. apply failed_true in H2.
    by rewrite H1, H2.
  - intros H1 H2 H3. apply failed_false in H1, H2. apply failed_true in H3.
    by rewrite H1, H2, H3.
Qed.

Lemma device_info_read_failure_witness :
  Idf.burstfire_get_device_info bus_read_fails 0x20 (Some info9) ready_state =
    ((ESP_FAIL,
      Some {| address := 0x20; fw_major := 9; fw_minor := 9; fw_patch := 9;
              connected := false |}),
     logged ready_state [I2cMasterWriteToDevice 0 0x20 [] 100;
                         I2cMasterWriteReadDevice 0 0x20 [0x90] 1 100]).
Proof.
  apply (device_info_read_failure bus_read_fails 0x20 info9 ready_state);
    first [reflexivity | vm_compute; discriminate].
Defined.

(** The ESP-IDF branch of the dual-platform source has the same
    [burstfire_get_device_info]. *)
Lemma dual_get_device_info_eq :
  Dual.burstfire_get_device_info = Idf.burstfire_get_device_info.
Proof. reflexivity. Qed.

Lemma device_info_address_idf V addr info st :
  g_initialized st = true ->
  exists r info' st',
    Idf.burstfire_get_device_info V addr (Some info) st = ((r, Some info'), st') /\
    address info' = addr.
Proof.
  intros Hinit.
  rewrite device_info_run by exact Hinit. cbv zeta.
  destruct (_ =? ESP_OK); repeat (destruct (failed _));
    do 3 eexists; (split; reflexivity).
Qed.

(** C10. On an initialised session with a non-null snapshot,
    [burstfire_get_device_info] of either source hands back a snapshot whose
    [address] is the [addr] argument, whatever the vendor driver answers to
    the probe and to the reads: the field does not depend on any bus
    transaction. This includes the returns with an error status, where the
    snapshot is otherwise only partly filled in. *)
Theorem device_info_address V addr info st :
  g_initialized st = true ->
  (exists r info' st',
     Idf.burstfire_get_device_info V addr (Some info) st = ((r, Some info'), st') /\
     address info' = addr) /\
  (exists r info' st',
     Dual.burstfire_get_device_info V addr (Some info) st = ((r, Some info'), st') /\
     address info' = addr).
Proof.
  intros Hinit. rewrite dual_get_device_info_eq.
  split; by apply device_info_address_idf.
Qed.

Lemma device_info_address_witness :
  (exists r info' st',
     Idf.burstfire_get_device_info bus_read_fails 0x21 (Some info0) ready_state
       = ((r, Some info'), st') /\
     address info' = 0x21) /\
  (exists r info' st',
     Dual.burstfire_get_device_info bus_read_fails 0x21 (Some info0) ready_state
       = ((r, Some info'), st') /\
     address info' = 0x21).
Proof.
  apply (device_info_address bus_read_fails 0x21 info0 ready_state). reflexivity.
Defined.

(** ** Scan *)

Lemma scan_loop_exit V fuel addr arr cnt st :
  0x23 < addr ->
  Idf.scan_loop V (S fuel) addr arr cnt st = (Returns (arr, cnt), st).
Proof.
  intros Ha. simpl. apply Z.leb_gt in Ha. by rewrite Ha.
Qed.

Lemma scan_loop_step V fuel addr arr cnt st :
  g_initialized st = true -> addr <= 0x23 ->
  Idf.scan_loop V (S fuel) addr arr cnt st =
    let st1 := logged st [probe_call V st addr] in
    if reply_code (answer V st [] (probe_call V st addr)) =? ESP_OK then
      if (Z.to_nat cnt <? length arr)%nat then
        Idf.scan_loop V fuel (u8 (addr + 1)) (<[Z.to_nat cnt := addr]> arr)
          (u8 (cnt + 1)) st1
      else (OutOfBounds, st1)
    else Idf.scan_loop V fuel (u8 (addr + 1)) arr cnt st1.
Proof.
  intros Hinit Ha. cbn [Idf.scan_loop]. apply Z.leb_le in Ha. rewrite Ha.
  unfold bind at 1. rewrite is_connected_run by done. cbv zeta.
  destruct (_ =? ESP_OK); [|reflexivity].
  by destruct (_ <? _)%nat.
Qed.

Ltac u8_eval :=
  repeat match goal with
  | |- context [u8 (?a + 1)] =>
    let v := eval vm_compute in (u8 (a + 1)) in change (u8 (a + 1)) with v
  end.

(** One turn of the loop, with the probe's status known from [E]. *)
Ltac scan_step E :=
  rewrite scan_loop_step by (first [done | lia]); cbv zeta;
  rewrite ?probe_call_logged, ?answer_logged, ?logged_logged;
  cbn [app]; u8_eval; rewrite E;
  cbn [Z.to_nat Pos.to_nat Pos.iter_op Nat.add length Nat.ltb Nat.leb].

(** The loop entered at 0x20 with an empty result: four turns and the exit
    test, whatever fuel is left after them. *)
Lemma scan_loop_sweep V fuel arr st :
  let found := List.filter (fun a => probe_status V st a =? ESP_OK) sweep_range in
  g_initialized st = true ->
  (length found <= length arr)%nat ->
  exists arr',
    Idf.scan_loop V (S (S (S (S (S fuel))))) 0x20 arr 0 st =
      (Returns (arr', Z.of_nat (length found)),
       logged st (map (probe_call V st) sweep_range)) /\
    take (length found) arr' = found /\
    drop (length found) arr' = drop (length found) arr /\
    length arr' = length arr.
Proof.
  intros found Hinit Hfit. subst found. revert Hfit.
  unfold probe_status, sweep_range.
  cbn [List.filter map Z.ltb Z.compare Pos.compare Pos.compare_cont].
  destruct (reply_code (answer V st [] _) =? ESP_OK) eqn:E0,
           (reply_code (answer V st [_] _) =? ESP_OK) eqn:E1,
           (reply_code (answer V st [_; _] _) =? ESP_OK) eqn:E2,
           (reply_code (answer V st [_; _; _] _) =? ESP_OK) eqn:E3;
    cbn [length]; intros Hfit;
    destruct arr as [|a0 [|a1 [|a2 [|a3 rest]]]]; cbn [length] in Hfit; try lia.
  all: scan_step E0; scan_step E1; scan_step E2; scan_step E3.
  all: rewrite scan_loop_exit by lia.
  all: eexists; (split; [reflexivity|]); repeat split.
Qed.

(** C3. On an initialised session, with a non-null array that has room for
    the responding addresses (any array of four or more bytes has) and a
    non-null count, [burstfire_scan_devices] probes 0x20, 0x21, 0x22 and 0x23
    in this order and makes no other vendor call, whatever the probes
    answer; it returns [ESP_OK]; the count written is the number of probes
    answered with [ESP_OK], and the array starts with exactly the addresses
    of those probes, in ascending order, the rest of it being untouched. *)
Theorem scan_devices_sweep V arr c0 st :
  let found := List.filter (fun a => probe_status V st a =? ESP_OK) sweep_range in
  g_initialized st = true ->
  (length found <= length arr)%nat ->
  exists arr',
    Idf.burstfire_scan_devices V (Some arr) (Some c0) st =
      (Returns (ESP_OK, Some arr', Some (Z.of_nat (length found))),
       logged st (map (probe_call V st) sweep_range)) /\
    take (length found) arr' = found /\
    drop (length found) arr' = drop (length found) arr /\
    length arr' = length arr.
Proof.
  intros found Hinit Hfit.
  destruct (scan_loop_sweep V 252 arr st Hinit Hfit) as (arr' & Hrun & Htake & Hdrop & Hlen).
  exists arr'. split; [|done].
  unfold Idf.burstfire_scan_devices, bind at 1, get_initialized.
  rewrite Hinit. cbn [negb]. unfold bind at 1.
  change Idf.scan_fuel with 257%nat. rewrite Hrun. reflexivity.
Qed.

Lemma scan_devices_sweep_witness :
  exists arr',
    Idf.burstfire_scan_devices bus_21_23 (Some [0; 0; 0; 0]) (Some 0) ready_state =
      (Returns (ESP_OK, Some arr', Some 2),
       logged ready_state
         [I2cMasterWriteToDevice 0 0x20 [] 100; I2cMasterWriteToDevice 0 0x21 [] 100;
          I2cMasterWriteToDevice 0 0x22 [] 100; I2cMasterWriteToDevice 0 0x23 [] 100]) /\
    take 2 arr' = [0x21; 0x23] /\
    drop 2 arr' = drop 2 [0; 0; 0; 0] /\
    length arr' = length [0; 0; 0; 0].
Proof.
  apply (scan_devices_sweep bus_21_23 [0; 0; 0; 0] 0 ready_state).
  - reflexivity.
  - vm_compute. lia.
Defined.

(** Four addresses are probed, so an array of four bytes always has room. *)
Lemma found_at_most_four V st :
  (length (List.filter (fun a => (probe_status V st a =? ESP_OK)%Z) sweep_range) <= 4)%nat.
Proof.
  unfold sweep_range. cbn [List.filter].
  repeat (destruct (_ =? ESP_OK)); cbn [length]; lia.
Qed.

(** Without that room the fourth store would land past the end of the array:
    three bytes cannot take four responders. *)
Example scan_overruns_short_array :
  fst (Idf.burstfire_scan_devices bus_ok (Some [0; 0; 0]) (Some 0) ready_state)
    = OutOfBounds.
Proof. reflexivity. Qed.

(** ** Initialize *)

(** C9, as stated, fails: nothing in [burstfire_init] looks at
    [g_initialized]. A second Initialize on a live session configures and
    installs the vendor driver again, here on another port, and overwrites the
    stored port. And a non-null config does not rule out
    [ESP_ERR_INVALID_ARG]: the status of [i2c_param_config] is passed on. *)
Lemma init_twice_configures_twice :
  let st1 := snd (Idf.burstfire_init bus_ok (Some config0) boot_state) in
  let st2 := snd (Idf.burstfire_init bus_ok (Some config1) st1) in
  g_initialized st1 = true /\
  bus_log st2 =
    [I2cParamConfig 0 (i2c_config_of config0); I2cDriverInstall 0 I2C_MODE_MASTER 0 0 0;
     I2cParamConfig 1 (i2c_config_of config1); I2cDriverInstall 1 I2C_MODE_MASTER 0 0 0] /\
  bus_log st2 <> bus_log st1 /\
  g_port st1 = 0 /\ g_port st2 = 1 /\
  fst (Idf.burstfire_init bus_rejects_config (Some config0) boot_state) = ESP_ERR_INVALID_ARG.
Proof.
  repeat split. vm_compute. discriminate.
Qed.

(** C9 (amended). [burstfire_init] answers a null config with
    [ESP_ERR_INVALID_ARG] and touches nothing. With a config, and whether or
    not a session is already initialised, it calls [i2c_param_config] and, if
    that succeeded, [i2c_driver_install] on the configured port; the first
    failing status is returned as it is and the flag and stored port stay as
    they were; when both succeed the port is stored, the flag is set and
    [ESP_OK] is returned. *)
Theorem init_configures_on_every_call V config st :
  let c1 := I2cParamConfig (port config) (i2c_config_of config) in
  let c2 := I2cDriverInstall (port config) I2C_MODE_MASTER 0 0 0 in
  let r1 := reply_code (answer V st [] c1) in
  let r2 := reply_code (answer V st [c1] c2) in
  Idf.burstfire_init V None st = (ESP_ERR_INVALID_ARG, st) /\
  (r1 <> ESP_OK -> Idf.burstfire_init V (Some config) st = (r1, logged st [c1])) /\
  (r1 = ESP_OK -> r2 <> ESP_OK ->
     Idf.burstfire_init V (Some config) st = (r2, logged st [c1; c2])) /\
  (r1 = ESP_OK -> r2 = ESP_OK ->
     Idf.burstfire_init V (Some config) st =
       (ESP_OK, {| g_initialized := true; g_port := port config;
                   bus_log := bus_log st ++ [c1; c2] |})).
Proof.
  intros c1 c2 r1 r2. split; [reflexivity|].
  subst r1 r2 c1 c2. unfold answer, logged, i2c_config_of. rewrite app_nil_r.
  destruct st as [ini p lg]. unfold Idf.burstfire_init. drv_step.
  repeat split.
  - intros H1. apply failed_true in H1. by rewrite H1.
  - intros H1 H2. apply failed_false in H1. apply failed_true in H2.
    rewrite H1. simpl. rewrite H2. by rewrite <- app_assoc.
  - intros H1 H2. apply failed_false in H1, H2.
    rewrite H1. simpl. rewrite H2. by rewrite <- app_assoc.
Qed.

Lemma init_configures_on_every_call_witness :
  Idf.burstfire_init bus_ok (Some config1) ready_state =
    (ESP_OK,
     {| g_initialized := true; g_port := 1;
        bus_log := [I2cParamConfig 1 (i2c_config_of config1);
                    I2cDriverInstall 1 I2C_MODE_MASTER 0 0 0] |}).
Proof.
  apply (init_configures_on_every_call bus_ok config1 ready_state); reflexivity.
Defined.

(** The ESP-IDF branch of the dual-platform source has the same
    [burstfire_init]. *)
Lemma dual_init_eq : Dual.burstfire_init = Idf.burstfire_init.
Proof. reflexivity. Qed.

(** ** The two sources side by side *)

Lemma dual_scan_loop_eq : Dual.scan_loop = Idf.scan_loop.
Proof. reflexivity. Qed.

Lemma dual_scan_devices_eq : Dual.burstfire_scan_devices = Idf.burstfire_scan_devices.
Proof.
  unfold Dual.burstfire_scan_devices, Idf.burstfire_scan_devices.
  rewrite dual_scan_loop_eq. reflexivity.
Qed.

Lemma dual_api_eq_idf V c st :
  c <> CallDeinit -> dual_api V c st = idf_api V c st.
Proof.
  destruct c; intros Hc; cbn [dual_api idf_api];
    rewrite ?dual_scan_devices_eq; try reflexivity.
  by destruct Hc.
Qed.

Lemma idf_deinit_run V st :
  g_initialized st = true ->
  Idf.burstfire_deinit V st =
    (reply_code (answer V st [] (I2cDriverDelete (g_port st))),
     {| g_initialized := false; g_port := g_port st;
        bus_log := bus_log st ++ [I2cDriverDelete (g_port st)] |}).
Proof.
  intros H. unfold Idf.burstfire_deinit. drv_step. rewrite H. simpl.
  unfold answer. by rewrite app_nil_r.
Qed.

Lemma dual_deinit_run V st :
  g_initialized st = true ->
  Dual.burstfire_deinit V st =
    let r := reply_code (answer V st [] (I2cDriverDelete (g_port st))) in
    (r, {| g_initialized := failed r; g_port := g_port st;
           bus_log := bus_log st ++ [I2cDriverDelete (g_port st)] |}).
Proof.
  intros H. unfold Dual.burstfire_deinit, answer. rewrite app_nil_r.
  destruct st as [ini p lg]. simpl in H. subst ini. drv_step.
  destruct (failed _) eqn:E; [reflexivity|].
  apply failed_false in E. by rewrite E.
Qed.

Lemma dual_deinit_uninitialized V st :
  g_initialized st = false ->
  Dual.burstfire_deinit V st = (ESP_ERR_INVALID_STATE, st).
Proof. intros H. unfold Dual.burstfire_deinit. drv_step. by rewrite H. Qed.

(** C8, as stated, fails: when [i2c_driver_delete] fails, the ESP-IDF source
    clears [g_initialized] all the same, while the dual-platform source
    returns before clearing it. The two leave different session states. *)
Lemma failed_teardown_differs :
  g_initialized (snd (idf_api bus_delete_fails CallDeinit ready_state)) = false /\
  g_initialized (snd (dual_api bus_delete_fails CallDeinit ready_state)) = true /\
  snd (idf_api bus_delete_fails CallDeinit ready_state) <>
    snd (dual_api bus_delete_fails CallDeinit ready_state).
Proof.
  repeat split. vm_compute. discriminate.
Qed.

(** C8 (amended). For every public operation and every input, the ESP-IDF
    source and the ESP-IDF branch of the dual-platform source hand back the
    same result, make the same vendor calls and leave the same stored port;
    they also leave the same initialised flag, except for Shutdown on an
    initialised session whose bus teardown fails: there both return the
    failure, the ESP-IDF source ends uninitialised and the dual-platform
    source stays initialised. *)
Theorem variants_agree_but_failed_teardown V c st :
  let i := idf_api V c st in
  let d := dual_api V c st in
  fst i = fst d /\
  bus_log (snd i) = bus_log (snd d) /\
  g_port (snd i) = g_port (snd d) /\
  (g_initialized (snd i) = g_initialized (snd d) \/
   (c = CallDeinit /\ g_initialized st = true /\
    reply_code (answer V st [] (I2cDriverDelete (g_port st))) <> ESP_OK /\
    g_initialized (snd i) = false /\ g_initialized (snd d) = true)).
Proof.
  intros i d. subst i d.
  assert (c = CallDeinit \/ c <> CallDeinit) as [->|Hc]
    by (destruct c; first [by left | by right]).
  - unfold idf_api, dual_api, lift_result, bind, ret.
    destruct (g_initialized st) eqn:Hinit.
    + rewrite idf_deinit_run, dual_deinit_run by done. cbv zeta. simpl.
      repeat split.
      destruct (failed _) eqn:E; [right | by left].
      apply failed_true in E. done.
    + rewrite dual_deinit_uninitialized by done.
      pose proof (uninitialized_all_fail_fast V st Hinit) as H.
      destruct H as (_ & _ & _ & _ & _ & _ & _ & H). rewrite H.
      repeat split. by left.
  - rewrite (dual_api_eq_idf V c st Hc). repeat split. by left.
Qed.

(** * Further properties of the ESP-IDF driver *)

Lemma lift_result_run {A} (f : A -> api_result) (m : M A) st :
  lift_result f m st = (f (fst (m st)), snd (m st)).
Proof. unfold lift_result, bind, ret. by destruct (m st). Qed.

(** ** Null output pointers *)

Lemma get_duty_null V addr st :
  g_initialized st = true ->
  Idf.burstfire_get_duty V addr None st = ((ESP_ERR_INVALID_ARG, None), st).
Proof. intros Hinit. idf_unfold. drv_step. by rewrite Hinit. Qed.

Lemma get_status_null V addr st :
  g_initialized st = true ->
  Idf.burstfire_get_status V addr None st = ((ESP_ERR_INVALID_ARG, None), st).
Proof. intros Hinit. idf_unfold. drv_step. by rewrite Hinit. Qed.

Lemma scan_devices_null V addresses count st :
  g_initialized st = true -> addresses = None \/ count = None ->
  Idf.burstfire_scan_devices V addresses count st =
    (Returns (ESP_ERR_INVALID_ARG, addresses, count), st).
Proof.
  intros Hinit Hnull.
  unfold Idf.burstfire_scan_devices, bind, get_initialized, ret.
  rewrite Hinit. cbn [negb].
  destruct Hnull as [-> | ->]; [reflexivity|]. by destruct addresses.
Qed.

Lemma firmware_version_null V addr major minor patch st :
  g_initialized st = true -> major = None \/ minor = None \/ patch = None ->
  Idf.burstfire_get_firmware_version V addr major minor patch st =
    ((ESP_ERR_INVALID_ARG, major, minor, patch), st).
Proof.
  intros Hinit Hnull.
  unfold Idf.burstfire_get_firmware_version, bind, get_initialized, ret.
  rewrite Hinit. cbn [negb].
  destruct Hnull as [-> | [-> | ->]]; [reflexivity | |].
  - by destruct major.
  - by destruct major, minor.
Qed.

Lemma device_info_null V addr st :
  g_initialized st = true ->
  Idf.burstfire_get_device_info V addr None st = ((ESP_ERR_INVALID_ARG, None), st).
Proof. intros Hinit. idf_unfold. drv_step. by rewrite Hinit. Qed.

Lemma get_duty_run V addr d st :
  g_initialized st = true ->
  Idf.burstfire_get_duty V addr (Some d) st =
    (let r := answer V st [] (read_call V st addr BURSTFIRE_REG_DUTY) in
     (reply_code r, Some (default d (reply_data r))),
     logged st [read_call V st addr BURSTFIRE_REG_DUTY]).
Proof.
  intros Hinit. unfold Idf.burstfire_get_duty, bind, get_initialized, ret.
  rewrite Hinit. cbn [negb].
  by rewrite read_reg_run by (unfold BURSTFIRE_REG_DUTY; lia).
Qed.

Lemma get_status_run V addr s st :
  g_initialized st = true ->
  Idf.burstfire_get_status V addr (Some s) st =
    (let r := answer V st [] (read_call V st addr BURSTFIRE_REG_STATUS) in
     (reply_code r, Some (default s (reply_data r))),
     logged st [read_call V st addr BURSTFIRE_REG_STATUS]).
Proof.
  intros Hinit. unfold Idf.burstfire_get_status, bind, get_initialized, ret.
  rewrite Hinit. cbn [negb].
  by rewrite read_reg_run by (unfold BURSTFIRE_REG_STATUS; lia).
Qed.

Lemma set_grid_run V addr is_60hz st :
  g_initialized st = true ->
  Idf.burstfire_set_grid_60hz V addr is_60hz st =
    (let w := write_call V st addr BURSTFIRE_REG_GRID_HZ (if is_60hz then 1 else 0) in
     (reply_code (answer V st [] w), logged st [w])).
Proof.
  intros Hinit. unfold Idf.burstfire_set_grid_60hz, bind, get_initialized, ret.
  rewrite Hinit. cbn [negb]. by rewrite write_reg_run.
Qed.

(** X1. On an initialised session every operation that is handed a NULL output
    pointer (get duty, get status, scan with a NULL array or a NULL count,
    get firmware version with any of its three outputs NULL, get device info)
    returns [ESP_ERR_INVALID_ARG], makes no vendor call and leaves the state
    and the other outputs as they were. *)
Theorem null_output_rejected V st :
  g_initialized st = true ->
  (forall addr,
      Idf.burstfire_get_duty V addr None st = ((ESP_ERR_INVALID_ARG, None), st)) /\
  (forall addr,
      Idf.burstfire_get_status V addr None st = ((ESP_ERR_INVALID_ARG, None), st)) /\
  (forall addresses count, addresses = None \/ count = None ->
      Idf.burstfire_scan_devices V addresses count st =
        (Returns (ESP_ERR_INVALID_ARG, addresses, count), st)) /\
  (forall addr major minor patch, major = None \/ minor = None \/ patch = None ->
      Idf.burstfire_get_firmware_version V addr major minor patch st =
        ((ESP_ERR_INVALID_ARG, major, minor, patch), st)) /\
  (forall addr,
      Idf.burstfire_get_device_info V addr None st = ((ESP_ERR_INVALID_ARG, None), st)).
Proof.
  intros Hinit. split; [|split; [|split; [|split]]].
  - intros addr. by apply get_duty_null.
  - intros addr. by apply get_status_null.
  - intros addresses count Hnull. by apply scan_devices_null.
  - intros addr major minor patch Hnull. by apply firmware_version_null.
  - intros addr. by apply device_info_null.
Qed.

Lemma null_output_rejected_witness :
  Idf.burstfire_get_firmware_version bus_ok 0x20 (Some 1) None (Some 3) ready_state =
    ((ESP_ERR_INVALID_ARG, Some 1, None, Some 3), ready_state).
Proof.
  apply (null_output_rejected bus_ok ready_state); [reflexivity | right; left; reflexivity].
Defined.

(** ** What reaches the bus *)

Lemma allowed_transfer_logged V st cs c :
  allowed_transfer V (logged st cs) c = allowed_transfer V st c.
Proof. reflexivity. Qed.

Lemma allowed_probe V st addr :
  allowed_transfer V st (probe_call V st addr) = true.
Proof. unfold allowed_transfer, probe_call. by rewrite !Z.eqb_refl. Qed.

Lemma allowed_read V st addr reg :
  In reg [BURSTFIRE_REG_DUTY; BURSTFIRE_REG_FW_MAJOR; BURSTFIRE_REG_FW_MINOR;
          BURSTFIRE_REG_FW_PATCH; BURSTFIRE_REG_STATUS] ->
  allowed_transfer V st (read_call V st addr reg) = true.
Proof.
  intros Hreg. unfold allowed_transfer, read_call. rewrite !Z.eqb_refl.
  cbn [In] in Hreg.
  destruct Hreg as [<- | [<- | [<- | [<- | [<- | []]]]]]; reflexivity.
Qed.

Lemma allowed_write_duty V st addr duty :
  duty <= 10 ->
  allowed_transfer V st (write_call V st addr BURSTFIRE_REG_DUTY duty) = true.
Proof.
  intros Hd. unfold allowed_transfer, write_call. rewrite !Z.eqb_refl.
  apply Z.leb_le in Hd. by rewrite Hd.
Qed.

Lemma allowed_write_grid V st addr (is_60hz : bool) :
  allowed_transfer V st
    (write_call V st addr BURSTFIRE_REG_GRID_HZ (if is_60hz then 1 else 0)) = true.
Proof.
  unfold allowed_transfer, write_call. rewrite !Z.eqb_refl. by destruct is_60hz.
Qed.

(** The loop keeps the session and only probes; entered at [addr] it probes
    at most the addresses from [addr] to 0x23. *)
Lemma scan_loop_trace V fuel :
  forall addr arr cnt st,
    g_initialized st = true -> 0x20 <= addr <= 0x24 ->
    exists cs,
      snd (Idf.scan_loop V fuel addr arr cnt st) = logged st cs /\
      forallb (allowed_transfer V st) cs = true /\
      (length cs <= Z.to_nat (0x24 - addr))%nat.
Proof.
  induction fuel as [|fuel IH]; intros addr arr cnt st Hinit Haddr.
  - exists []. cbn. rewrite logged_nil. repeat split. lia.
  - destruct (Z_le_gt_dec addr 0x23) as [Hin|Hout].
    + rewrite scan_loop_step by done. cbv zeta.
      assert (u8 (addr + 1) = addr + 1) as Hnext
        by (unfold u8; apply Z.mod_small; lia).
      rewrite Hnext.
      set (st1 := logged st [probe_call V st addr]).
      assert (forall arr' cnt',
        exists cs,
          snd (Idf.scan_loop V fuel (addr + 1) arr' cnt' st1) = logged st cs /\
          forallb (allowed_transfer V st) cs = true /\
          (length cs <= Z.to_nat (0x24 - addr))%nat) as Hrest.
      { intros arr' cnt'.
        destruct (IH (addr + 1) arr' cnt' st1) as (cs & Hs & Hall & Hlen);
          [done | lia |].
        exists (probe_call V st addr :: cs). split; [|split].
        - rewrite Hs. unfold st1. by rewrite logged_logged.
        - cbn [forallb]. rewrite allowed_probe. exact Hall.
        - cbn [length]. lia. }
      destruct (_ =? ESP_OK); [|apply Hrest].
      destruct (_ <? _)%nat; [apply Hrest|].
      exists [probe_call V st addr]. split; [reflexivity|]. split.
      * cbn [forallb]. by rewrite allowed_probe.
      * cbn [length]. lia.
    + rewrite scan_loop_exit by lia. exists []. cbn [snd].
      rewrite logged_nil. repeat split. cbn [length]. lia.
Qed.

Lemma device_ops_trace V c st :
  g_initialized st = true ->
  is_device_op c = true ->
  exists cs,
    snd (idf_api V c st) = logged st cs /\
    Forall (fun x => allowed_transfer V st x = true) cs /\
    (length cs <= max_transfers c)%nat.
Proof.
  intros Hinit Hop.
  assert (forall (s : drv_state), exists cs0,
            s = logged s cs0 /\
            Forall (fun x => allowed_transfer V st x = true) cs0 /\
            (length cs0 <= 0)%nat) as Hnone.
  { intros s. exists []. rewrite logged_nil. repeat split; [constructor | cbn; lia]. }
  assert (forall x, allowed_transfer V st x = true ->
            exists cs0, logged st [x] = logged st cs0 /\
              Forall (fun x => allowed_transfer V st x = true) cs0 /\
              (length cs0 <= 1)%nat) as Hone.
  { intros x Hx. exists [x]. repeat split; [by repeat constructor | cbn; lia]. }
  destruct c; try discriminate Hop; cbn [idf_api max_transfers];
    rewrite lift_result_run; cbn [snd].
  - (* set duty *)
    destruct (Z_lt_le_dec 10 duty) as [Hbig|Hsmall].
    + rewrite set_duty_too_large by done. cbn [snd].
      destruct (Hnone st) as (cs & ? & ? & ?). exists cs. repeat split; [done..|lia].
    + rewrite set_duty_in_range by done. apply Hone. by apply allowed_write_duty.
  - (* get duty *)
    destruct duty as [d|].
    + rewrite get_duty_run by done. apply Hone. apply allowed_read. cbn. tauto.
    + rewrite get_duty_null by done. cbn [snd].
      destruct (Hnone st) as (cs & ? & ? & ?). exists cs. repeat split; [done..|lia].
  - (* set grid frequency *)
    rewrite set_grid_run by done. apply Hone. apply allowed_write_grid.
  - (* get status *)
    destruct status as [s|].
    + rewrite get_status_run by done. apply Hone. apply allowed_read. cbn. tauto.
    + rewrite get_status_null by done. cbn [snd].
      destruct (Hnone st) as (cs & ? & ? & ?). exists cs. repeat split; [done..|lia].
  - (* is connected *)
    rewrite is_connected_run by done. apply Hone. apply allowed_probe.
  - (* scan *)
    destruct addresses as [arr|], count as [c0|];
      try (rewrite scan_devices_null by (first [done | by left | by right]); cbn [snd];
           destruct (Hnone st) as (cs & ? & ? & ?); exists cs;
           repeat split; [done..|lia]).
    unfold Idf.burstfire_scan_devices, bind, get_initialized, ret.
    rewrite Hinit. cbn [negb].
    destruct (scan_loop_trace V Idf.scan_fuel 0x20 arr 0 st Hinit ltac:(lia))
      as (cs & Hs & Hall & Hlen).
    destruct (Idf.scan_loop V Idf.scan_fuel 32 arr 0 st) as [o st'].
    cbn [snd] in Hs. subst st'. exists cs.
    split; [|split].
    + by destruct o as [[arr' cnt']| |].
    + apply List.Forall_forall. intros x Hx.
      by apply (proj1 (forallb_forall _ _) Hall).
    + exact Hlen.
  - (* firmware version *)
    destruct major as [ma|], minor as [mi|], patch as [pa|];
      try (rewrite firmware_version_null by (first [done | by left | by (right; left)
                                                    | by (right; right)]);
           cbn [snd]; destruct (Hnone st) as (cs & ? & ? & ?); exists cs;
           repeat split; [done..|lia]).
    rewrite firmware_version_run by done. cbv zeta.
    repeat (destruct (failed _)); cbn [snd]; eexists; (split; [reflexivity|]);
      (split; [|cbn; lia]); repeat constructor; apply allowed_read; cbn; tauto.
  - (* device info *)
    destruct info as [info|].
    + rewrite device_info_run by done. cbv zeta.
      destruct (_ =? ESP_OK); repeat (destruct (failed _)); cbn [snd];
        eexists; (split; [reflexivity|]); (split; [|cbn; lia]); repeat constructor;
        first [apply allowed_probe | apply allowed_read; cbn; tauto].
    + rewrite device_info_null by done. cbn [snd].
      destruct (Hnone st) as (cs & ? & ? & ?). exists cs. repeat split; [done..|lia].
Qed.


(** X2. Every device operation (all but Initialize and Shutdown) on an
    initialised session keeps [g_initialized] and [g_port], only appends to
    the log of vendor calls, appends at most [max_transfers] calls (1 for the
    duty, grid, status and probe operations, 3 for the firmware version, 4
    for the scan and the device info), and every call it appends is a
    transfer on the stored port with the 100 ms timeout that is either the
    empty probe, a write of a duty of at most 10 to register 0x00, a write
    of 0 or 1 to register 0x02, or a one-byte read of register 0x00, 0x10,
    0x11, 0x12 or 0x13. *)
Theorem device_ops_protocol V c st :
  g_initialized st = true ->
  is_device_op c = true ->
  exists cs,
    snd (idf_api V c st) = logged st cs /\
    forallb (allowed_transfer V st) cs = true /\
    (length cs <= max_transfers c)%nat.
Proof.
  intros Hinit Hop.
  destruct (device_ops_trace V c st Hinit Hop) as (cs & Hs & Hall & Hlen).
  exists cs. split; [exact Hs|]. split; [|exact Hlen].
  apply forallb_forall. intros x Hx.
  by apply (proj1 (List.Forall_forall _ _) Hall).
Qed.

Lemma device_ops_protocol_witness :
  exists cs,
    snd (idf_api bus_21_23 (CallGetDeviceInfo 0x21 (Some info0)) ready_state)
      = logged ready_state cs /\
    forallb (allowed_transfer bus_21_23 ready_state) cs = true /\
    (length cs <= 4)%nat.
Proof.
  apply (device_ops_protocol bus_21_23 (CallGetDeviceInfo 0x21 (Some info0)) ready_state);
    reflexivity.
Defined.

(** ** The connected flag and the status agree *)

(** X3. On an initialised session with a non-null snapshot,
    [burstfire_get_device_info] never reports [connected = true] together
    with an error: the flag is [true] exactly when the probe was acknowledged
    and the status is [ESP_OK], which is exactly when the probe and all three
    reads succeeded; the call has then made four transfers. *)
Theorem device_info_connected_iff V addr info st :
  g_initialized st = true ->
  let p := probe_call V st addr in
  let c1 := read_call V st addr BURSTFIRE_REG_FW_MAJOR in
  let c2 := read_call V st addr BURSTFIRE_REG_FW_MINOR in
  let c3 := read_call V st addr BURSTFIRE_REG_FW_PATCH in
  let all_ok :=
    reply_code (answer V st [] p) = ESP_OK /\
    reply_code (answer V st [p] c1) = ESP_OK /\
    reply_code (answer V st [p; c1] c2) = ESP_OK /\
    reply_code (answer V st [p; c1; c2] c3) = ESP_OK in
  exists r info' st',
    Idf.burstfire_get_device_info V addr (Some info) st = ((r, Some info'), st') /\
    (connected info' = true <-> all_ok) /\
    (connected info' = true -> r = ESP_OK /\ st' = logged st [p; c1; c2; c3]) /\
    (r <> ESP_OK -> connected info' = false).
Proof.
  intros Hinit p c1 c2 c3 all_ok. subst all_ok.
  rewrite device_info_run by exact Hinit. cbv zeta.
  fold p. fold c1 c2 c3.
  destruct (reply_code (answer V st [] p) =? ESP_OK) eqn:E0.
  - apply Z.eqb_eq in E0.
    destruct (failed (reply_code (answer V st [p] c1))) eqn:E1;
      [|destruct (failed (reply_code (answer V st [p; c1] c2))) eqn:E2;
        [|destruct (failed (reply_code (answer V st [p; c1; c2] c3))) eqn:E3]];
      do 3 eexists; (split; [reflexivity|]); cbn [connected];
      rewrite ?failed_true, ?failed_false in *.
    + split; [|split]; [split | |]; try done. by intros (_ & H & _).
    + split; [|split]; [split | |]; try done. by intros (_ & _ & H & _).
    + split; [|split]; [split | |]; try done. by intros (_ & _ & _ & H).
    + split; [|split]; [split | |]; try done.
  - apply Z.eqb_neq in E0.
    do 3 eexists. split; [reflexivity|]. cbn [connected].
    split; [|split]; [split | |]; try done. by intros (H & _).
Qed.

Lemma device_info_connected_iff_witness :
  exists r info' st',
    Idf.burstfire_get_device_info bus_ok 0x20 (Some info0) ready_state
      = ((r, Some info'), st') /\
    (connected info' = true <->
       ESP_OK = ESP_OK /\ ESP_OK = ESP_OK /\ ESP_OK = ESP_OK /\ ESP_OK = ESP_OK) /\
    (connected info' = true ->
       r = ESP_OK /\
       st' = logged ready_state
               [I2cMasterWriteToDevice 0 0x20 [] 100;
                I2cMasterWriteReadDevice 0 0x20 [0x90] 1 100;
                I2cMasterWriteReadDevice 0 0x20 [0x91] 1 100;
                I2cMasterWriteReadDevice 0 0x20 [0x92] 1 100]) /\
    (r <> ESP_OK -> connected info' = false).
Proof.
  apply (device_info_connected_iff bus_ok 0x20 info0 ready_state). reflexivity.
Defined.

(** ** Scan and the capacity of the array *)

Ltac scan_run :=
  repeat (first [rewrite scan_loop_step by (first [done | lia])
                | rewrite scan_loop_exit by lia];
          cbv zeta;
          rewrite ?probe_call_logged, ?answer_logged, ?logged_logged;
          cbn [app]; u8_eval;
          repeat match goal with
                 | H : (_ =? ESP_OK) = _ |- _ => rewrite H
                 end;
          cbn [Z.to_nat Pos.to_nat Pos.iter_op Nat.add length Nat.ltb Nat.leb]).

(** With fewer bytes than responders the loop reaches a store past the end. *)
Lemma scan_loop_overrun V fuel arr st :
  let found := List.filter (fun a => probe_status V st a =? ESP_OK) sweep_range in
  g_initialized st = true ->
  (length arr < length found)%nat ->
  fst (Idf.scan_loop V (S (S (S (S (S fuel))))) 0x20 arr 0 st) = OutOfBounds.
Proof.
  intros found Hinit Hfit. subst found. revert Hfit.
  unfold probe_status, sweep_range.
  cbn [List.filter map Z.ltb Z.compare Pos.compare Pos.compare_cont].
  destruct (reply_code (answer V st [] _) =? ESP_OK) eqn:E0,
           (reply_code (answer V st [_] _) =? ESP_OK) eqn:E1,
           (reply_code (answer V st [_; _] _) =? ESP_OK) eqn:E2,
           (reply_code (answer V st [_; _; _] _) =? ESP_OK) eqn:E3;
    cbn [length]; intros Hfit;
    destruct arr as [|a0 [|a1 [|a2 [|a3 rest]]]]; cbn [length] in Hfit; try lia.
  all: scan_run.
  all: reflexivity.
Qed.

Lemma scan_devices_outcome V arr c0 st :
  g_initialized st = true ->
  fst (Idf.burstfire_scan_devices V (Some arr) (Some c0) st) =
    match fst (Idf.scan_loop V Idf.scan_fuel 0x20 arr 0 st) with
    | Returns (arr', cnt') => Returns (ESP_OK, Some arr', Some cnt')
    | OutOfBounds => OutOfBounds
    | OutOfFuel => OutOfFuel
    end.
Proof.
  intros Hinit.
  unfold Idf.burstfire_scan_devices, bind at 1, get_initialized.
  rewrite Hinit. cbn [negb]. unfold bind at 1.
  by destruct (Idf.scan_loop V Idf.scan_fuel 32 arr 0 st) as [[[arr' cnt']| |] st'].
Qed.

(** X4. On an initialised session with non-null outputs, [burstfire_scan_devices]
    does not check the capacity of the array: it stores past its end exactly
    when fewer bytes are available than addresses respond, and returns
    [ESP_OK] in every other case. The loop always ends. *)
Theorem scan_devices_capacity V arr c0 st :
  g_initialized st = true ->
  let found := List.filter (fun a => probe_status V st a =? ESP_OK) sweep_range in
  let o := fst (Idf.burstfire_scan_devices V (Some arr) (Some c0) st) in
  (o = OutOfBounds <-> (length arr < length found)%nat) /\
  ((length found <= length arr)%nat ->
     exists arr', o = Returns (ESP_OK, Some arr', Some (Z.of_nat (length found)))) /\
  o <> OutOfFuel.
Proof.
  intros Hinit found o. subst o.
  rewrite scan_devices_outcome by exact Hinit.
  change Idf.scan_fuel with 257%nat.
  destruct (Nat.le_gt_cases (length found) (length arr)) as [Hfit|Hover].
  - destruct (scan_loop_sweep V 252 arr st Hinit Hfit) as (arr' & Hrun & _).
    rewrite Hrun. cbn [fst]. split; [|split].
    + split; [discriminate | intros Hlt; subst found; lia].
    + intros _. by exists arr'.
    + discriminate.
  - rewrite (scan_loop_overrun V 252 arr st Hinit Hover). split; [|split].
    + by split.
    + intros Hfit. subst found. lia.
    + discriminate.
Qed.

Lemma scan_devices_capacity_witness :
  let found :=
    List.filter (fun a => probe_status bus_ok ready_state a =? ESP_OK) sweep_range in
  let o := fst (Idf.burstfire_scan_devices bus_ok (Some [0; 0]) (Some 0) ready_state) in
  (o = OutOfBounds <-> (length [0; 0] < length found)%nat) /\
  ((length found <= length [0; 0])%nat ->
     exists arr', o = Returns (ESP_OK, Some arr', Some (Z.of_nat (length found)))) /\
  o <> OutOfFuel.
Proof.
  apply (scan_devices_capacity bus_ok [0; 0] 0 ready_state). reflexivity.
Defined.

(** ** Initialize, then Shutdown *)

Lemma init_run V config st :
  let c1 := I2cParamConfig (port config) (i2c_config_of config) in
  let c2 := I2cDriverInstall (port config) I2C_MODE_MASTER 0 0 0 in
  let r1 := reply_code (answer V st [] c1) in
  let r2 := reply_code (answer V st [c1] c2) in
  Idf.burstfire_init V (Some config) st =
    if failed r1 then (r1, logged st [c1])
    else if failed r2 then (r2, logged st [c1; c2])
    else (ESP_OK, {| g_initialized := true; g_port := port config;
                     bus_log := bus_log st ++ [c1; c2] |}).
Proof.
  intros c1 c2 r1 r2. subst r1 r2 c1 c2.
  unfold answer, logged, i2c_config_of. rewrite app_nil_r.
  destruct st as [ini p lg]. unfold Idf.burstfire_init. drv_step.
  destruct (failed (reply_code (i2c_bus V lg _))) eqn:E1; [reflexivity|]. simpl.
  destruct (failed (reply_code (i2c_bus V (lg ++ _) _))) eqn:E2;
    simpl; by rewrite <- app_assoc.
Qed.

(** X5. When [burstfire_init] returns [ESP_OK] the session is initialised on the
    configured port, after exactly the two vendor calls; a [burstfire_deinit]
    that follows deletes the driver of that same port, returns the status of
    the deletion, and leaves the session uninitialised whatever that status
    is. *)
Theorem init_then_deinit V config st :
  fst (Idf.burstfire_init V (Some config) st) = ESP_OK ->
  let st1 := snd (Idf.burstfire_init V (Some config) st) in
  let del := I2cDriverDelete (port config) in
  g_initialized st1 = true /\
  g_port st1 = port config /\
  bus_log st1 =
    bus_log st ++ [I2cParamConfig (port config) (i2c_config_of config);
                   I2cDriverInstall (port config) I2C_MODE_MASTER 0 0 0] /\
  Idf.burstfire_deinit V st1 =
    (reply_code (i2c_bus V (bus_log st1) del),
     {| g_initialized := false; g_port := port config;
        bus_log := bus_log st1 ++ [del] |}).
Proof.
  intros Hok st1 del. subst st1 del. revert Hok.
  rewrite init_run. cbv zeta.
  destruct (failed (reply_code (answer V st [] _))) eqn:E1.
  { cbn [fst]. intros Hok. apply failed_true in E1. done. }
  destruct (failed (reply_code (answer V st [_] _))) eqn:E2.
  { cbn [fst]. intros Hok. apply failed_true in E2. done. }
  intros _. cbn [fst snd g_initialized g_port bus_log].
  split; [reflexivity|]. split; [reflexivity|]. split; [reflexivity|].
  rewrite idf_deinit_run by reflexivity.
  unfold answer. cbn [g_port bus_log]. by rewrite app_nil_r.
Qed.

Lemma init_then_deinit_witness :
  let st1 := snd (Idf.burstfire_init bus_delete_fails (Some config1) boot_state) in
  let del := I2cDriverDelete (port config1) in
  g_initialized st1 = true /\
  g_port st1 = port config1 /\
  bus_log st1 =
    bus_log boot_state ++ [I2cParamConfig (port config1) (i2c_config_of config1);
                           I2cDriverInstall (port config1) I2C_MODE_MASTER 0 0 0] /\
  Idf.burstfire_deinit bus_delete_fails st1 =
    (reply_code (i2c_bus bus_delete_fails (bus_log st1) del),
     {| g_initialized := false; g_port := port config1;
        bus_log := bus_log st1 ++ [del] |}).
Proof.
  apply (init_then_deinit bus_delete_fails config1 boot_state). reflexivity.
Defined.

(** ** The dual-platform source on ESP-IDF *)

(** X6. In the dual-platform source every operation but Initialize fails fast on
    an uninitialised session: it hands back the not-initialized status
    ([false] for the probe) with its outputs untouched, and the state and the
    log of vendor calls stay as they were. *)
Theorem dual_uninitialized_fails_fast V c st :
  g_initialized st = false ->
  (forall config, c <> CallInit config) ->
  dual_api V c st = (uninitialized_result c, st).
Proof.
  intros Hoff Hc.
  destruct c; cbn [dual_api uninitialized_result]; rewrite lift_result_run.
  - by destruct (Hc config).
  - by rewrite dual_deinit_uninitialized.
  - dual_unfold. drv_step. by rewrite Hoff.
  - dual_unfold. drv_step. by rewrite Hoff.
  - dual_unfold. drv_step. by rewrite Hoff.
  - dual_unfold. drv_step. by rewrite Hoff.
  - dual_unfold. drv_step. by rewrite Hoff.
  - unfold Dual.burstfire_scan_devices, bind, get_initialized, ret. by rewrite Hoff.
  - dual_unfold. drv_step. by rewrite Hoff.
  - dual_unfold. drv_step. by rewrite Hoff.
Qed.

Lemma dual_uninitialized_fails_fast_witness :
  dual_api bus_ok (CallGetFirmwareVersion 0x20 (Some 1) None (Some 3)) boot_state =
    (ResVersion ESP_ERR_INVALID_STATE (Some 1) None (Some 3), boot_state).
Proof.
  apply (dual_uninitialized_fails_fast bus_ok
           (CallGetFirmwareVersion 0x20 (Some 1) None (Some 3)) boot_state).
  - reflexivity.
  - intros config. discriminate.
Defined.

(** X7. In the dual-platform source, Shutdown on an initialised session calls
    [i2c_driver_delete] once on the stored port and returns its status. The
    session ends uninitialised exactly when that status is [ESP_OK]; after a
    failed teardown it is still initialised on the same port, so that the
    next Shutdown tries the deletion again instead of failing with
    not-initialized. *)
Theorem dual_shutdown_retry V st :
  g_initialized st = true ->
  let del := I2cDriverDelete (g_port st) in
  let r := reply_code (answer V st [] del) in
  let st1 := snd (Dual.burstfire_deinit V st) in
  fst (Dual.burstfire_deinit V st) = r /\
  g_port st1 = g_port st /\
  bus_log st1 = bus_log st ++ [del] /\
  (g_initialized st1 = false <-> r = ESP_OK) /\
  (r <> ESP_OK ->
     Dual.burstfire_deinit V st1 =
       let r' := reply_code (answer V st [del] del) in
       (r', {| g_initialized := failed r'; g_port := g_port st;
               bus_log := bus_log st ++ [del; del] |})).
Proof.
  intros Hinit del r st1. subst st1.
  rewrite dual_deinit_run by exact Hinit. cbv zeta. fold del. fold r.
  cbn [fst snd g_port bus_log g_initialized].
  split; [reflexivity|]. split; [reflexivity|]. split; [reflexivity|]. split.
  - apply failed_false.
  - intros Hfail. apply failed_true in Hfail. rewrite Hfail.
    rewrite dual_deinit_run by reflexivity. cbv zeta.
    unfold answer. cbn [g_port bus_log]. by rewrite app_nil_r, <- app_assoc.
Qed.

Lemma dual_shutdown_retry_witness :
  let del := I2cDriverDelete (g_port ready_state) in
  let r := reply_code (answer bus_delete_fails ready_state [] del) in
  let st1 := snd (Dual.burstfire_deinit bus_delete_fails ready_state) in
  fst (Dual.burstfire_deinit bus_delete_fails ready_state) = r /\
  g_port st1 = g_port ready_state /\
  bus_log st1 = bus_log ready_state ++ [del] /\
  (g_initialized st1 = false <-> r = ESP_OK) /\
  (r <> ESP_OK ->
     Dual.burstfire_deinit bus_delete_fails st1 =
       let r' := reply_code (answer bus_delete_fails ready_state [del] del) in
       (r', {| g_initialized := failed r'; g_port := g_port ready_state;
               bus_log := bus_log ready_state ++ [del; del] |})).
Proof.
  apply (dual_shutdown_retry bus_delete_fails ready_state). reflexivity.
Defined.

(** ** Statuses of the ESP-IDF build *)

(** X8. On an initialised session, the operations that access registers (set and
    get duty, set grid frequency, get status, get firmware version) either
    stop at a guard, returning [ESP_ERR_INVALID_ARG] without a vendor call,
    or return exactly the status the vendor gave to the last call they made:
    no status of the bus is translated or dropped. *)
Theorem bus_status_verbatim V c st :
  g_initialized st = true ->
  register_op c = true ->
  (status_of (fst (idf_api V c st)) = Some ESP_ERR_INVALID_ARG /\
   snd (idf_api V c st) = st) \/
  (exists cs last,
     snd (idf_api V c st) = logged st (cs ++ [last]) /\
     status_of (fst (idf_api V c st)) = Some (reply_code (answer V st cs last))).
Proof.
  intros Hinit Hop.
  destruct c; try discriminate Hop; cbn [idf_api]; rewrite lift_result_run;
    cbn [fst snd status_of].
  - (* set duty *)
    destruct (Z_lt_le_dec 10 duty) as [Hbig|Hsmall].
    + rewrite set_duty_too_large by done. by left.
    + rewrite set_duty_in_range by done. right.
      exists [], (write_call V st addr BURSTFIRE_REG_DUTY duty). by split.
  - (* get duty *)
    destruct duty as [d|].
    + rewrite get_duty_run by done. cbv zeta. right.
      exists [], (read_call V st addr BURSTFIRE_REG_DUTY). by split.
    + rewrite get_duty_null by done. by left.
  - (* set grid frequency *)
    rewrite set_grid_run by done. cbv zeta. right.
    exists [], (write_call V st addr BURSTFIRE_REG_GRID_HZ (if is_60hz then 1 else 0)).
    by split.
  - (* get status *)
    destruct status as [s|].
    + rewrite get_status_run by done. cbv zeta. right.
      exists [], (read_call V st addr BURSTFIRE_REG_STATUS). by split.
    + rewrite get_status_null by done. by left.
  - (* firmware version *)
    destruct major as [ma|], minor as [mi|], patch as [pa|];
      try (rewrite firmware_version_null
             by (first [done | by left | by (right; left) | by (right; right)]);
           by left).
    rewrite firmware_version_run by done. cbv zeta. right.
    destruct (failed (reply_code (answer V st [] _)));
      [|destruct (failed (reply_code (answer V st [_] _)))].
    + exists [], (read_call V st addr BURSTFIRE_REG_FW_MAJOR). by split.
    + exists [read_call V st addr BURSTFIRE_REG_FW_MAJOR],
             (read_call V st addr BURSTFIRE_REG_FW_MINOR). by split.
    + exists [read_call V st addr BURSTFIRE_REG_FW_MAJOR;
              read_call V st addr BURSTFIRE_REG_FW_MINOR],
             (read_call V st addr BURSTFIRE_REG_FW_PATCH). by split.
Qed.

Lemma bus_status_verbatim_witness :
  (status_of (fst (idf_api bus_read_fails (CallGetStatus 0x20 (Some 0)) ready_state))
     = Some ESP_ERR_INVALID_ARG /\
   snd (idf_api bus_read_fails (CallGetStatus 0x20 (Some 0)) ready_state) = ready_state) \/
  (exists cs last,
     snd (idf_api bus_read_fails (CallGetStatus 0x20 (Some 0)) ready_state)
       = logged ready_state (cs ++ [last]) /\
     status_of (fst (idf_api bus_read_fails (CallGetStatus 0x20 (Some 0)) ready_state))
       = Some (reply_code (answer bus_read_fails ready_state cs last))).
Proof.
  apply (bus_status_verbatim bus_read_fails (CallGetStatus 0x20 (Some 0)) ready_state);
    reflexivity.
Defined.

(** ** The log only grows *)

Lemma idf_uninitialized_api V c st :
  g_initialized st = false ->
  (forall config, c <> CallInit config) ->
  idf_api V c st = (uninitialized_result c, st).
Proof.
  intros Hoff Hc.
  destruct (uninitialized_all_fail_fast V st Hoff)
    as (H1 & H2 & H3 & H4 & H5 & H6 & H7 & H8).
  unfold fails_fast in *.
  destruct c; cbn [idf_api uninitialized_result]; rewrite lift_result_run.
  - by destruct (Hc config).
  - by rewrite H8.
  - by rewrite H1.
  - by rewrite H2.
  - by rewrite H3.
  - by rewrite H4.
  - by rewrite is_connected_uninitialized.
  - by rewrite H5.
  - by rewrite H6.
  - by rewrite H7.
Qed.

(** X9. Whatever the state and the arguments, an operation of the ESP-IDF build
    never rewrites what it logged before: the log of vendor calls afterwards
    is the log before followed by the calls the operation made, and these are
    at most 2 for Initialize, 1 for Shutdown and for the duty, grid, status
    and probe operations, 3 for the firmware version and 4 for the scan and
    the device info. On an uninitialised session only Initialize makes any. *)
Theorem api_calls_bounded V c st :
  exists cs,
    bus_log (snd (idf_api V c st)) = bus_log st ++ cs /\
    (length cs <= max_transfers c)%nat /\
    (g_initialized st = false -> (forall config, c <> CallInit config) -> cs = []).
Proof.
  destruct (is_device_op c) eqn:Hop.
  - destruct (g_initialized st) eqn:Hinit.
    + destruct (device_ops_trace V c st Hinit Hop) as (cs & Hs & _ & Hlen).
      exists cs. rewrite Hs. by repeat split.
    + exists []. rewrite idf_uninitialized_api, app_nil_r; [|done|].
      * repeat split. cbn [length]. lia.
      * intros config. by destruct c.
  - destruct c as [config| | | | | | | | |]; try discriminate Hop;
      cbn [idf_api max_transfers]; rewrite lift_result_run; cbn [snd].
    + (* init *)
      destruct config as [config|].
      * rewrite init_run. cbv zeta.
        destruct (failed (reply_code (answer V st [] _)));
          [|destruct (failed (reply_code (answer V st [_] _)))];
          cbn [snd bus_log logged]; eexists; (split; [reflexivity|]);
          (split; [cbn [length]; lia|]); intros _ Hc; by destruct (Hc (Some config)).
      * exists []. cbn [Idf.burstfire_init ret snd]. rewrite app_nil_r.
        split; [reflexivity|]. split; [cbn [length]; lia | done].
    + (* deinit *)
      destruct (g_initialized st) eqn:Hinit.
      * rewrite idf_deinit_run by done. cbn [snd bus_log].
        eexists. split; [reflexivity|]. split; [cbn [length]; lia | done].
      * destruct (uninitialized_all_fail_fast V st Hinit)
          as (_ & _ & _ & _ & _ & _ & _ & H8).
        rewrite H8. exists []. cbn [snd]. rewrite app_nil_r.
        repeat split. cbn [length]. lia.
Qed.

(** * The Arduino build *)

Ltac wire_step :=
  unfold Arduino.bind, Arduino.ret, Arduino.get_initialized, Arduino.set_initialized,
    Arduino.set_port, Arduino.set_sda_pin, Arduino.set_scl_pin, Arduino.wire_do; simpl.

Lemma arduino_logged_nil st : Arduino.logged st [] = st.
Proof. destruct st; unfold Arduino.logged; simpl. by rewrite app_nil_r. Qed.

Lemma arduino_logged_logged st a b :
  Arduino.logged (Arduino.logged st a) b = Arduino.logged st (a ++ b).
Proof. unfold Arduino.logged; simpl. by rewrite app_assoc. Qed.

(** ** Register access over [Wire] *)

Lemma arduino_write_reg_run W addr reg val st :
  Arduino.write_reg W addr reg val st =
    let cs := [Arduino.WireBeginTransmission addr; Arduino.WireWrite reg;
               Arduino.WireWrite val] in
    (if W (Arduino.wire_log st ++ cs) Arduino.WireEndTransmission =? 0
     then ESP_OK else ESP_FAIL,
     Arduino.logged st (cs ++ [Arduino.WireEndTransmission])).
Proof.
  unfold Arduino.write_reg, Arduino.logged. wire_step.
  by rewrite <- ?app_assoc.
Qed.

Section ArduinoRead.
Context (W : list Arduino.wire_call -> Arduino.wire_call -> Z).
Context (addr reg val : Z) (st : Arduino.state).

(** The calls of one register read and the library's answers to them. *)
Let pre := [Arduino.WireBeginTransmission addr; Arduino.WireWrite (u8 (Z.lor 0x80 reg))].
Let req := Arduino.WireRequestFrom addr 1.
Let e := W (Arduino.wire_log st ++ pre) Arduino.WireEndTransmission.
Let n := W (Arduino.wire_log st ++ pre ++ [Arduino.WireEndTransmission]) req.
Let a := W (Arduino.wire_log st ++ pre ++ [Arduino.WireEndTransmission; req])
           Arduino.WireAvailable.
Let b := W (Arduino.wire_log st ++ pre ++
              [Arduino.WireEndTransmission; req; Arduino.WireAvailable])
           Arduino.WireRead.

Lemma arduino_read_reg_run :
  Arduino.read_reg W addr reg val st =
    if negb (e =? 0) then
      ((ESP_FAIL, val), Arduino.logged st (pre ++ [Arduino.WireEndTransmission]))
    else if negb (n =? 1) then
      ((ESP_FAIL, val), Arduino.logged st (pre ++ [Arduino.WireEndTransmission; req]))
    else if negb (a =? 0) then
      ((ESP_OK, u8 b),
       Arduino.logged st (pre ++ [Arduino.WireEndTransmission; req;
                                  Arduino.WireAvailable; Arduino.WireRead]))
    else
      ((ESP_FAIL, val),
       Arduino.logged st (pre ++ [Arduino.WireEndTransmission; req;
                                  Arduino.WireAvailable])).
Proof.
  subst e n a b req pre.
  unfold Arduino.read_reg, Arduino.logged. wire_step.
  rewrite <- ?app_assoc. cbn [app].
  destruct (_ =? 0); simpl; rewrite <- ?app_assoc; simpl; [|reflexivity].
  destruct (_ =? 1); simpl; rewrite <- ?app_assoc; simpl; [|reflexivity].
  destruct (_ =? 0); simpl; rewrite <- ?app_assoc; simpl; reflexivity.
Qed.
End ArduinoRead.

(** A register read ends with [ESP_OK] or [ESP_FAIL], and a read that does
    not end with [ESP_OK] leaves its output alone. *)
Lemma arduino_read_reg_status W addr reg val st :
  let res := Arduino.read_reg W addr reg val st in
  (fst (fst res) = ESP_OK \/ (fst (fst res) = ESP_FAIL /\ snd (fst res) = val)) /\
  Arduino.g_initialized (snd res) = Arduino.g_initialized st.
Proof.
  cbv zeta. rewrite arduino_read_reg_run. cbv zeta.
  repeat (destruct (negb _)); cbn [fst snd]; split; (reflexivity || tauto).
Qed.

Lemma arduino_write_reg_status W addr reg val st :
  fst (Arduino.write_reg W addr reg val st) = ESP_OK \/
  fst (Arduino.write_reg W addr reg val st) = ESP_FAIL.
Proof.
  rewrite arduino_write_reg_run. cbv zeta. cbn [fst].
  destruct (_ =? 0); tauto.
Qed.

(** X10. In the Arduino build a register write is one transmission of exactly the
    two bytes [reg], [val] to [addr], and it ends with [ESP_OK] when
    [endTransmission] answers 0 and with [ESP_FAIL] otherwise. A register read
    is a transmission of the one byte [reg | 0x80], followed by a separate
    request for one byte only if that transmission ended with 0. It ends with
    [ESP_OK] or [ESP_FAIL], never with another status; the output is stored
    to only when it ends with [ESP_OK], and is then a byte. *)
Theorem arduino_register_access W addr reg val buf st :
  0 <= reg < 256 ->
  let wr := [Arduino.WireBeginTransmission addr; Arduino.WireWrite reg;
             Arduino.WireWrite val] in
  let pre := [Arduino.WireBeginTransmission addr; Arduino.WireWrite (Z.lor reg 0x80)] in
  let w := Arduino.write_reg W addr reg val st in
  let r := Arduino.read_reg W addr reg buf st in
  snd w = Arduino.logged st (wr ++ [Arduino.WireEndTransmission]) /\
  (fst w = ESP_OK <-> W (Arduino.wire_log st ++ wr) Arduino.WireEndTransmission = 0) /\
  (fst w = ESP_OK \/ fst w = ESP_FAIL) /\
  (exists rest,
     snd r = Arduino.logged st (pre ++ Arduino.WireEndTransmission :: rest)) /\
  (W (Arduino.wire_log st ++ pre) Arduino.WireEndTransmission <> 0 ->
     r = ((ESP_FAIL, buf), Arduino.logged st (pre ++ [Arduino.WireEndTransmission]))) /\
  (fst (fst r) = ESP_OK \/ (fst (fst r) = ESP_FAIL /\ snd (fst r) = buf)) /\
  (fst (fst r) = ESP_OK -> 0 <= snd (fst r) < 256).
Proof.
  intros Hreg wr pre w r. subst w r wr pre.
  rewrite <- (lor_0x80_byte reg Hreg).
  rewrite arduino_write_reg_run, arduino_read_reg_run. cbv zeta.
  split; [reflexivity|]. cbn [fst snd]. split; [|split; [|split; [|split; [|split]]]].
  - destruct (_ =? 0) eqn:E.
    + apply Z.eqb_eq in E. by split.
    + apply Z.eqb_neq in E. split; [discriminate | done].
  - destruct (_ =? 0); tauto.
  - repeat (destruct (negb _)); cbn [snd]; eexists; reflexivity.
  - intros Hend. apply Z.eqb_neq in Hend. by rewrite Hend.
  - repeat (destruct (negb _)); cbn [fst snd]; tauto.
  - repeat (destruct (negb _)); cbn [fst snd]; try discriminate.
    intros _. unfold u8. apply Z.mod_pos_bound. lia.
Qed.

Lemma arduino_register_access_witness :
  Arduino.read_reg Arduino.wire_nack 0x20 0x10 7 Arduino.ready_state =
    ((ESP_FAIL, 7),
     Arduino.logged Arduino.ready_state
       [Arduino.WireBeginTransmission 0x20; Arduino.WireWrite 0x90;
        Arduino.WireEndTransmission]).
Proof.
  apply (arduino_register_access Arduino.wire_nack 0x20 0x10 0 7 Arduino.ready_state).
  - lia.
  - vm_compute. discriminate.
Defined.

(** ** Initialize and Shutdown over [Wire] *)

(** X11. In the Arduino build Initialize with a config cannot fail: it calls
    [Wire.begin] with the two pins and [Wire.setClock] with the clock rate,
    ignores what they return, stores pins and port and sets the flag. With a
    NULL config it touches nothing. Shutdown makes no [Wire] call: it clears
    the flag on an initialised session and answers [ESP_ERR_INVALID_STATE]
    otherwise, so Initialize followed by two Shutdowns gives [ESP_OK], then
    [ESP_OK], then [ESP_ERR_INVALID_STATE]. *)
Theorem arduino_session W config st :
  let st1 :=
    {| Arduino.g_initialized := true;
       Arduino.g_port := port config;
       Arduino.g_sda_pin := sda_pin config;
       Arduino.g_scl_pin := scl_pin config;
       Arduino.wire_log :=
         Arduino.wire_log st ++ [Arduino.WireBegin (sda_pin config) (scl_pin config);
                                 Arduino.WireSetClock (clk_speed config)] |} in
  let st2 :=
    {| Arduino.g_initialized := false;
       Arduino.g_port := port config;
       Arduino.g_sda_pin := sda_pin config;
       Arduino.g_scl_pin := scl_pin config;
       Arduino.wire_log := Arduino.wire_log st1 |} in
  Arduino.burstfire_init W None st = (ESP_ERR_INVALID_ARG, st) /\
  Arduino.burstfire_init W (Some config) st = (ESP_OK, st1) /\
  Arduino.burstfire_deinit st1 = (ESP_OK, st2) /\
  Arduino.burstfire_deinit st2 = (ESP_ERR_INVALID_STATE, st2).
Proof.
  intros st1 st2. subst st1 st2. repeat split.
  unfold Arduino.burstfire_init. wire_step. by rewrite <- app_assoc.
Qed.

(** X12. In the Arduino build every operation but Initialize fails fast on an
    uninitialised session: it hands back the not-initialized status ([false]
    for the probe) with its outputs untouched and makes no [Wire] call. *)
Theorem arduino_uninitialized_fails_fast W c st :
  Arduino.g_initialized st = false ->
  (forall config, c <> CallInit config) ->
  Arduino.api W c st = (uninitialized_result c, st).
Proof.
  intros Hoff Hc.
  destruct c; cbn [Arduino.api uninitialized_result].
  - by destruct (Hc config).
  - unfold Arduino.burstfire_deinit. wire_step. by rewrite Hoff.
  - unfold Arduino.burstfire_set_duty. wire_step. by rewrite Hoff.
  - unfold Arduino.burstfire_get_duty. wire_step. by rewrite Hoff.
  - unfold Arduino.burstfire_set_grid_60hz. wire_step. by rewrite Hoff.
  - unfold Arduino.burstfire_get_status. wire_step. by rewrite Hoff.
  - unfold Arduino.burstfire_is_connected. wire_step. by rewrite Hoff.
  - unfold Arduino.burstfire_scan_devices, Arduino.bind, Arduino.get_initialized,
      Arduino.ret. by rewrite Hoff.
  - unfold Arduino.burstfire_get_firmware_version. wire_step. by rewrite Hoff.
  - unfold Arduino.burstfire_get_device_info. wire_step. by rewrite Hoff.
Qed.

Lemma arduino_uninitialized_fails_fast_witness :
  Arduino.api Arduino.wire_ok (CallScanDevices (Some [0; 0; 0; 0]) (Some 0))
    Arduino.boot_state =
  (ResScan (Returns (ESP_ERR_INVALID_STATE, Some [0; 0; 0; 0], Some 0)),
   Arduino.boot_state).
Proof.
  apply (arduino_uninitialized_fails_fast Arduino.wire_ok
           (CallScanDevices (Some [0; 0; 0; 0]) (Some 0)) Arduino.boot_state).
  - reflexivity.
  - intros config. discriminate.
Defined.

(** ** Firmware version and device info over [Wire] *)

Lemma arduino_is_connected_run W addr st :
  Arduino.g_initialized st = true ->
  Arduino.burstfire_is_connected W addr st =
    (W (Arduino.wire_log st ++ [Arduino.WireBeginTransmission addr])
       Arduino.WireEndTransmission =? 0,
     Arduino.logged st (wire_probe addr)).
Proof.
  intros Hinit. unfold Arduino.burstfire_is_connected, Arduino.logged, wire_probe.
  wire_step. rewrite Hinit. simpl. rewrite ?Hinit. by rewrite <- app_assoc.
Qed.

Section ArduinoFirmware.
Context (W : list Arduino.wire_call -> Arduino.wire_call -> Z).
Context (addr ma mi pa : Z) (st : Arduino.state).

(** The three reads, each started where the one before ended. *)
Let x1 := Arduino.read_reg W addr BURSTFIRE_REG_FW_MAJOR ma st.
Let x2 := Arduino.read_reg W addr BURSTFIRE_REG_FW_MINOR mi (snd x1).
Let x3 := Arduino.read_reg W addr BURSTFIRE_REG_FW_PATCH pa (snd x2).

Lemma arduino_firmware_version_run :
  Arduino.g_initialized st = true ->
  Arduino.burstfire_get_firmware_version W addr (Some ma) (Some mi) (Some pa) st =
    if failed (fst (fst x1)) then
      ((ESP_FAIL, Some ma, Some mi, Some pa), snd x1)
    else if failed (fst (fst x2)) then
      ((ESP_FAIL, Some (snd (fst x1)), Some mi, Some pa), snd x2)
    else if failed (fst (fst x3)) then
      ((ESP_FAIL, Some (snd (fst x1)), Some (snd (fst x2)), Some pa), snd x3)
    else
      ((ESP_OK, Some (snd (fst x1)), Some (snd (fst x2)), Some (snd (fst x3))), snd x3).
Proof.
  intros Hinit. subst x3 x2 x1.
  unfold Arduino.burstfire_get_firmware_version, Arduino.bind at 1,
    Arduino.get_initialized.
  rewrite Hinit. cbn [negb]. unfold Arduino.bind, Arduino.ret.
  pose proof (arduino_read_reg_status W addr BURSTFIRE_REG_FW_MAJOR ma st) as [H1 _].
  cbv zeta in H1.
  destruct (Arduino.read_reg W addr BURSTFIRE_REG_FW_MAJOR ma st) as [[r1 v1] s1].
  cbn [fst snd] in *.
  destruct H1 as [-> | [-> ->]]; [|reflexivity].
  change (failed ESP_OK) with false. cbv iota.
  pose proof (arduino_read_reg_status W addr BURSTFIRE_REG_FW_MINOR mi s1) as [H2 _].
  cbv zeta in H2.
  destruct (Arduino.read_reg W addr BURSTFIRE_REG_FW_MINOR mi s1) as [[r2 v2] s2].
  cbn [fst snd] in *.
  destruct H2 as [-> | [-> ->]]; [|reflexivity].
  change (failed ESP_OK) with false. cbv iota.
  pose proof (arduino_read_reg_status W addr BURSTFIRE_REG_FW_PATCH pa s2) as [H3 _].
  cbv zeta in H3.
  destruct (Arduino.read_reg W addr BURSTFIRE_REG_FW_PATCH pa s2) as [[r3 v3] s3].
  cbn [fst snd] in *.
  destruct H3 as [-> | [-> ->]]; reflexivity.
Qed.
End ArduinoFirmware.

Section ArduinoDeviceInfo.
Context (W : list Arduino.wire_call -> Arduino.wire_call -> Z).
Context (addr : Z) (info : burstfire_device_info_t) (st : Arduino.state).

Let st0 := Arduino.logged st (wire_probe addr).
Let x1 := Arduino.read_reg W addr BURSTFIRE_REG_FW_MAJOR (fw_major info) st0.
Let x2 := Arduino.read_reg W addr BURSTFIRE_REG_FW_MINOR (fw_minor info) (snd x1).
Let x3 := Arduino.read_reg W addr BURSTFIRE_REG_FW_PATCH (fw_patch info) (snd x2).

Lemma arduino_device_info_run :
  Arduino.g_initialized st = true ->
  Arduino.burstfire_get_device_info W addr (Some info) st =
    if W (Arduino.wire_log st ++ [Arduino.WireBeginTransmission addr])
         Arduino.WireEndTransmission =? 0
    then
      if failed (fst (fst x1)) then
        ((ESP_FAIL,
          Some {| address := addr; fw_major := fw_major info;
                  fw_minor := fw_minor info; fw_patch := fw_patch info;
                  connected := false |}), snd x1)
      else if failed (fst (fst x2)) then
        ((ESP_FAIL,
          Some {| address := addr; fw_major := snd (fst x1);
                  fw_minor := fw_minor info; fw_patch := fw_patch info;
                  connected := false |}), snd x2)
      else if failed (fst (fst x3)) then
        ((ESP_FAIL,
          Some {| address := addr; fw_major := snd (fst x1);
                  fw_minor := snd (fst x2); fw_patch := fw_patch info;
                  connected := false |}), snd x3)
      else
        ((ESP_OK,
          Some {| address := addr; fw_major := snd (fst x1);
                  fw_minor := snd (fst x2); fw_patch := snd (fst x3);
                  connected := true |}), snd x3)
    else
      ((ESP_OK,
        Some {| address := addr; fw_major := 0; fw_minor := 0; fw_patch := 0;
                connected := false |}), st0).
Proof.
  intros Hinit. subst x3 x2 x1 st0.
  unfold Arduino.burstfire_get_device_info, Arduino.bind at 1, Arduino.get_initialized.
  rewrite Hinit. cbn [negb].
  unfold Arduino.bind at 1. rewrite arduino_is_connected_run by exact Hinit.
  destruct (_ =? 0); [|reflexivity].
  cbn [connected set_connected set_address set_fw_major set_fw_minor set_fw_patch
       fw_major fw_minor fw_patch address].
  unfold Arduino.bind, Arduino.ret.
  rewrite arduino_firmware_version_run by exact Hinit. cbv zeta.
  repeat match goal with
         | |- context [failed (fst (fst ?x))] => destruct (failed (fst (fst x)))
         end; reflexivity.
Qed.
End ArduinoDeviceInfo.

(** X13. In the Arduino build, on an initialised session with a non-null snapshot
    whose address acknowledges the probe, a failing firmware read makes
    [burstfire_get_device_info] return [ESP_FAIL] with [connected = false],
    and the version fields of the failing register and of those after it
    hold what they held before: all three when the major read fails. *)
Theorem arduino_device_info_read_failure W addr info st :
  Arduino.g_initialized st = true ->
  W (Arduino.wire_log st ++ [Arduino.WireBeginTransmission addr])
    Arduino.WireEndTransmission = 0 ->
  let st0 := Arduino.logged st (wire_probe addr) in
  let x1 := Arduino.read_reg W addr BURSTFIRE_REG_FW_MAJOR (fw_major info) st0 in
  let x2 := Arduino.read_reg W addr BURSTFIRE_REG_FW_MINOR (fw_minor info) (snd x1) in
  let x3 := Arduino.read_reg W addr BURSTFIRE_REG_FW_PATCH (fw_patch info) (snd x2) in
  let res := Arduino.burstfire_get_device_info W addr (Some info) st in
  (fst (fst x1) <> ESP_OK ->
     res = ((ESP_FAIL,
             Some {| address := addr; fw_major := fw_major info;
                     fw_minor := fw_minor info; fw_patch := fw_patch info;
                     connected := false |}), snd x1)) /\
  (fst (fst x1) = ESP_OK -> fst (fst x2) <> ESP_OK ->
     res = ((ESP_FAIL,
             Some {| address := addr; fw_major := snd (fst x1);
                     fw_minor := fw_minor info; fw_patch := fw_patch info;
                     connected := false |}), snd x2)) /\
  (fst (fst x1) = ESP_OK -> fst (fst x2) = ESP_OK -> fst (fst x3) <> ESP_OK ->
     res = ((ESP_FAIL,
             Some {| address := addr; fw_major := snd (fst x1);
                     fw_minor := snd (fst x2); fw_patch := fw_patch info;
                     connected := false |}), snd x3)).
Proof.
  intros Hinit Hprobe st0 x1 x2 x3 res. subst res.
  rewrite arduino_device_info_run by exact Hinit. cbv zeta.
  fold st0. fold x1. fold x2. fold x3.
  apply Z.eqb_eq in Hprobe. rewrite Hprobe.
  split; [|split].
  - intros H1. apply failed_true in H1. by rewrite H1.
  - intros H1 H2. apply failed_false in H1. apply failed_true in H2.
    by rewrite H1, H2.
  - intros H1 H2 H3. apply failed_false in H1, H2. apply failed_true in H3.
    by rewrite H1, H2, H3.
Qed.

Lemma arduino_device_info_read_failure_witness :
  Arduino.burstfire_get_device_info Arduino.wire_no_data 0x20 (Some info9)
    Arduino.ready_state =
  ((ESP_FAIL,
    Some {| address := 0x20; fw_major := 9; fw_minor := 9; fw_patch := 9;
            connected := false |}),
   Arduino.logged Arduino.ready_state
     [Arduino.WireBeginTransmission 0x20; Arduino.WireEndTransmission;
      Arduino.WireBeginTransmission 0x20; Arduino.WireWrite 0x90;
      Arduino.WireEndTransmission; Arduino.WireRequestFrom 0x20 1]).
Proof.
  apply (arduino_device_info_read_failure Arduino.wire_no_data 0x20 info9
           Arduino.ready_state);
    first [reflexivity | vm_compute; discriminate].
Defined.

(** ** Statuses of the Arduino build *)

Lemma arduino_scan_devices_status W addresses count st r :
  status_of (ResScan (fst (Arduino.burstfire_scan_devices W addresses count st))) = Some r ->
  plain_status r.
Proof.
  unfold Arduino.burstfire_scan_devices, Arduino.bind, Arduino.get_initialized,
    Arduino.ret.
  destruct (Arduino.g_initialized st); cbn [negb].
  - destruct addresses as [arr|], count as [c0|]; cbn [fst status_of];
      try (intros [= <-]; unfold plain_status; tauto).
    destruct (Arduino.scan_loop W Arduino.scan_fuel 32 arr 0 st) as [[[arr' cnt']| |] st'];
      cbn [fst status_of]; try discriminate.
    intros [= <-]. unfold plain_status; tauto.
  - cbn [fst status_of]. intros [= <-]. unfold plain_status; tauto.
Qed.

(** X14. In the Arduino build no operation hands back a status of the bus
    library: whatever [Wire] answers, the status of every public operation is
    [ESP_OK], [ESP_FAIL], [ESP_ERR_INVALID_ARG] or [ESP_ERR_INVALID_STATE]. *)
Theorem arduino_status_codes W c st r :
  status_of (fst (Arduino.api W c st)) = Some r -> plain_status r.
Proof.
  unfold plain_status.
  destruct c; cbn [Arduino.api]; unfold Arduino.bind at 1.
  - (* init *)
    destruct config as [config|]; cbn; intros [= <-]; tauto.
  - (* deinit *)
    unfold Arduino.burstfire_deinit. wire_step.
    destruct (Arduino.g_initialized st); cbn; intros [= <-]; tauto.
  - (* set duty *)
    unfold Arduino.burstfire_set_duty, Arduino.bind, Arduino.get_initialized, Arduino.ret.
    destruct (Arduino.g_initialized st); cbn [negb]; [|cbn; intros [= <-]; tauto].
    destruct (10 <? duty); [cbn; intros [= <-]; tauto|].
    pose proof (arduino_write_reg_status W addr BURSTFIRE_REG_DUTY duty st) as Hw.
    destruct (Arduino.write_reg W addr BURSTFIRE_REG_DUTY duty st) as [r0 s0].
    cbn in *. intros [= <-]. tauto.
  - (* get duty *)
    unfold Arduino.burstfire_get_duty, Arduino.bind, Arduino.get_initialized, Arduino.ret.
    destruct (Arduino.g_initialized st); cbn [negb]; [|cbn; intros [= <-]; tauto].
    destruct duty as [d|]; [|cbn; intros [= <-]; tauto].
    pose proof (arduino_read_reg_status W addr BURSTFIRE_REG_DUTY d st) as [Hr _].
    destruct (Arduino.read_reg W addr BURSTFIRE_REG_DUTY d st) as [[r0 v0] s0].
    cbn in *. intros [= <-]. tauto.
  - (* set grid frequency *)
    unfold Arduino.burstfire_set_grid_60hz, Arduino.bind, Arduino.get_initialized,
      Arduino.ret.
    destruct (Arduino.g_initialized st); cbn [negb]; [|cbn; intros [= <-]; tauto].
    pose proof (arduino_write_reg_status W addr BURSTFIRE_REG_GRID_HZ
                  (if is_60hz then 1 else 0) st) as Hw.
    destruct (Arduino.write_reg W addr BURSTFIRE_REG_GRID_HZ _ st) as [r0 s0].
    cbn in *. intros [= <-]. tauto.
  - (* get status *)
    unfold Arduino.burstfire_get_status, Arduino.bind, Arduino.get_initialized,
      Arduino.ret.
    destruct (Arduino.g_initialized st); cbn [negb]; [|cbn; intros [= <-]; tauto].
    destruct status as [s|]; [|cbn; intros [= <-]; tauto].
    pose proof (arduino_read_reg_status W addr BURSTFIRE_REG_STATUS s st) as [Hr _].
    destruct (Arduino.read_reg W addr BURSTFIRE_REG_STATUS s st) as [[r0 v0] s0].
    cbn in *. intros [= <-]. tauto.
  - (* is connected *)
    destruct (Arduino.burstfire_is_connected W addr st). cbn. discriminate.
  - (* scan *)
    intros H. apply (arduino_scan_devices_status W addresses count st).
    by destruct (Arduino.burstfire_scan_devices W addresses count st).
  - (* firmware version *)
    destruct (Arduino.g_initialized st) eqn:Hinit.
    + destruct major as [ma|], minor as [mi|], patch as [pa|];
        try (unfold Arduino.burstfire_get_firmware_version, Arduino.bind,
               Arduino.get_initialized, Arduino.ret;
             rewrite Hinit; cbn; intros [= <-]; tauto).
      rewrite arduino_firmware_version_run by exact Hinit. cbv zeta.
      repeat (destruct (failed _)); cbn; intros [= <-]; tauto.
    + unfold Arduino.burstfire_get_firmware_version, Arduino.bind,
        Arduino.get_initialized, Arduino.ret.
      rewrite Hinit. cbn. intros [= <-]. tauto.
  - (* device info *)
    destruct (Arduino.g_initialized st) eqn:Hinit.
    + destruct info as [info|].
      * rewrite arduino_device_info_run by exact Hinit. cbv zeta.
        destruct (_ =? 0); repeat (destruct (failed _)); cbn; intros [= <-]; tauto.
      * unfold Arduino.burstfire_get_device_info, Arduino.bind,
          Arduino.get_initialized, Arduino.ret.
        rewrite Hinit. cbn. intros [= <-]. tauto.
    + unfold Arduino.burstfire_get_device_info, Arduino.bind,
        Arduino.get_initialized, Arduino.ret.
      rewrite Hinit. cbn. intros [= <-]. tauto.
Qed.

Lemma arduino_status_codes_witness :
  plain_status ESP_FAIL.
Proof.
  apply (arduino_status_codes Arduino.wire_nack (CallSetDuty 0x20 5) Arduino.ready_state).
  reflexivity.
Defined.

(** ** Scan over [Wire] *)

Lemma arduino_scan_loop_exit W fuel addr arr cnt st :
  0x23 < addr ->
  Arduino.scan_loop W (S fuel) addr arr cnt st = (Returns (arr, cnt), st).
Proof.
  intros Ha. simpl. apply Z.leb_gt in Ha. by rewrite Ha.
Qed.

Lemma arduino_scan_loop_step W fuel addr arr cnt st :
  Arduino.g_initialized st = true -> addr <= 0x23 ->
  Arduino.scan_loop W (S fuel) addr arr cnt st =
    let st1 := Arduino.logged st (wire_probe addr) in
    if W (Arduino.wire_log st ++ [Arduino.WireBeginTransmission addr])
         Arduino.WireEndTransmission =? 0
    then
      if (Z.to_nat cnt <? length arr)%nat then
        Arduino.scan_loop W fuel (u8 (addr + 1)) (<[Z.to_nat cnt := addr]> arr)
          (u8 (cnt + 1)) st1
      else (OutOfBounds, st1)
    else Arduino.scan_loop W fuel (u8 (addr + 1)) arr cnt st1.
Proof.
  intros Hinit Ha. cbn [Arduino.scan_loop]. apply Z.leb_le in Ha. rewrite Ha.
  unfold Arduino.bind at 1. rewrite arduino_is_connected_run by done. cbv zeta.
  destruct (_ =? 0); [|reflexivity].
  by destruct (_ <? _)%nat.
Qed.

Lemma arduino_wire_log_logged st cs :
  Arduino.wire_log (Arduino.logged st cs) = Arduino.wire_log st ++ cs.
Proof. reflexivity. Qed.

Ltac wire_scan_step E :=
  rewrite arduino_scan_loop_step by (first [done | lia]); cbv zeta;
  rewrite ?arduino_logged_logged, ?arduino_wire_log_logged;
  unfold wire_probe; rewrite <- ?app_assoc; cbn [app]; u8_eval; rewrite E;
  cbn [Z.to_nat Pos.to_nat Pos.iter_op Nat.add length Nat.ltb Nat.leb].

Lemma arduino_scan_loop_sweep W fuel arr st :
  let found := List.filter (fun a => wire_probe_status W st a =? 0) sweep_range in
  Arduino.g_initialized st = true ->
  (length found <= length arr)%nat ->
  exists arr',
    Arduino.scan_loop W (S (S (S (S (S fuel))))) 0x20 arr 0 st =
      (Returns (arr', Z.of_nat (length found)),
       Arduino.logged st (concat (map wire_probe sweep_range))) /\
    take (length found) arr' = found /\
    drop (length found) arr' = drop (length found) arr /\
    length arr' = length arr.
Proof.
  intros found Hinit Hfit. subst found. revert Hfit.
  unfold wire_probe_status, sweep_range, wire_probe.
  cbn [List.filter map concat app Z.ltb Z.compare Pos.compare Pos.compare_cont].
  destruct (W (Arduino.wire_log st ++ [_]) _ =? 0) eqn:E0,
           (W (Arduino.wire_log st ++ [_; _; _]) _ =? 0) eqn:E1,
           (W (Arduino.wire_log st ++ [_; _; _; _; _]) _ =? 0) eqn:E2,
           (W (Arduino.wire_log st ++ [_; _; _; _; _; _; _]) _ =? 0) eqn:E3;
    cbn [length]; intros Hfit;
    destruct arr as [|a0 [|a1 [|a2 [|a3 rest]]]]; cbn [length] in Hfit; try lia.
  all: wire_scan_step E0; wire_scan_step E1; wire_scan_step E2; wire_scan_step E3.
  all: rewrite arduino_scan_loop_exit by lia.
  all: rewrite ?arduino_logged_logged; cbn [app].
  all: simpl.
  all: eexists; (split; [reflexivity|]); repeat split.
Qed.

(** X15. In the Arduino build, on an initialised session with a non-null count and
    a non-null array that has room for the responders,
    [burstfire_scan_devices] makes exactly eight [Wire] calls, a
    [beginTransmission] and an [endTransmission] for each of 0x20, 0x21, 0x22
    and 0x23 in this order; it returns [ESP_OK], and the array starts with
    the addresses whose [endTransmission] answered 0, in ascending order,
    followed by what it held before; the count is their number. *)
Theorem arduino_scan_sweep W arr c0 st :
  let found := List.filter (fun a => wire_probe_status W st a =? 0) sweep_range in
  Arduino.g_initialized st = true ->
  (length found <= length arr)%nat ->
  exists arr',
    Arduino.burstfire_scan_devices W (Some arr) (Some c0) st =
      (Returns (ESP_OK, Some arr', Some (Z.of_nat (length found))),
       Arduino.logged st (concat (map wire_probe sweep_range))) /\
    take (length found) arr' = found /\
    drop (length found) arr' = drop (length found) arr /\
    length arr' = length arr.
Proof.
  intros found Hinit Hfit.
  destruct (arduino_scan_loop_sweep W 252 arr st Hinit Hfit)
    as (arr' & Hrun & Htake & Hdrop & Hlen).
  exists arr'. split; [|done].
  unfold Arduino.burstfire_scan_devices, Arduino.bind at 1, Arduino.get_initialized.
  rewrite Hinit. cbn [negb]. unfold Arduino.bind at 1.
  change Arduino.scan_fuel with 257%nat. rewrite Hrun. reflexivity.
Qed.

Lemma arduino_scan_sweep_witness :
  exists arr',
    Arduino.burstfire_scan_devices Arduino.wire_ok (Some [0; 0; 0; 0; 9]) (Some 0)
      Arduino.ready_state =
      (Returns (ESP_OK, Some arr', Some 4),
       Arduino.logged Arduino.ready_state (concat (map wire_probe sweep_range))) /\
    take 4 arr' = [0x20; 0x21; 0x22; 0x23] /\
    drop 4 arr' = drop 4 [0; 0; 0; 0; 9] /\
    length arr' = length [0; 0; 0; 0; 9].
Proof.
  apply (arduino_scan_sweep Arduino.wire_ok [0; 0; 0; 0; 9] 0 Arduino.ready_state).
  - reflexivity.
  - vm_compute. lia.
Defined.
